(** * Subtitle-Streaming: the browser client (frontend/app.js) and the
      streaming session controller it talks to.

    The client is an event-driven program: a handful of global variables
    ([ws], [mediaRecorder], [isRecording], [stream]), the DOM nodes it
    writes to, and handlers the browser calls one at a time.  It is
    embedded here as a state record and one function per handler; the
    browser objects the handlers call into (WebSocket, MediaRecorder,
    setTimeout) are modelled by the part of their state the handlers can
    observe.  Left out are what no handler reads back: [console.log]
    output, the counters and the start time that only feed it and the
    page title, and the scroll position of the caption area.

    The handlers of one recorder or socket stay registered when a later
    session replaces the globals, and they read the globals at the time
    they run; events may therefore arrive in any order, from any socket
    ever made and from any recorder. *)

From Stdlib Require Import NArith Ascii String.
From Stdlib.Strings Require Import Byte.
From stdpp Require Import base option list.

Set Default Proof Using "Type".

(** ** JavaScript strings

    A JavaScript string is a sequence of 16-bit code units.  Only
    comparison, slicing and concatenation are used by the program, so a
    code unit is kept as its number. *)
Module JS.

Definition code_unit := N.
Definition jsstring := list code_unit.

(** A string literal of the source, which is ASCII throughout. *)
Definition lit (s : string) : jsstring :=
  (fun a => N_of_ascii a) <$> list_ascii_of_string s.

(** ECMAScript WhiteSpace and LineTerminator code points, the characters
    [String.prototype.trim] removes. *)
Definition is_white_space (c : code_unit) : bool :=
  ((c =? 0x0009) || (c =? 0x000B) || (c =? 0x000C) || (c =? 0xFEFF)
   || (c =? 0x0020) || (c =? 0x00A0) || (c =? 0x1680)
   || ((0x2000 <=? c) && (c <=? 0x200A))
   || (c =? 0x202F) || (c =? 0x205F) || (c =? 0x3000))%N.

Definition is_line_terminator (c : code_unit) : bool :=
  ((c =? 0x000A) || (c =? 0x000D) || (c =? 0x2028) || (c =? 0x2029))%N.

Definition is_trimmed_char (c : code_unit) : bool :=
  is_white_space c || is_line_terminator c.

Fixpoint trim_start (s : jsstring) : jsstring :=
  match s with
  | [] => []
  | c :: s' => if is_trimmed_char c then trim_start s' else s
  end.

Definition trim_end (s : jsstring) : jsstring :=
  reverse (trim_start (reverse s)).

(** [s.trim()] *)
Definition trim (s : jsstring) : jsstring := trim_end (trim_start s).

(** [s.startsWith(p)] *)
Fixpoint startsWith (s p : jsstring) {struct p} : bool :=
  match p, s with
  | [], _ => true
  | _ :: _, [] => false
  | a :: p', b :: s' => (a =? b)%N && startsWith s' p'
  end.

(** [s.substring(n)] for a non-negative [n]: the code units from index
    [n] on, the empty string when [n] is past the end. *)
Definition substring (n : nat) (s : jsstring) : jsstring := drop n s.

(** Truthiness of a string: only the empty string is falsy. *)
Definition truthy (s : jsstring) : bool :=
  match s with [] => false | _ :: _ => true end.

End JS.

(** ** The client: frontend/app.js *)
Module Client.
Import JS.

(** *** Browser objects *)

(** [WebSocket.readyState] *)
Inductive ready_state := CONNECTING | OPEN | CLOSING | CLOSED.

#[global] Instance ready_state_eq_dec : EqDecision ready_state.
Proof. solve_decision. Defined.

(** A WebSocket data frame as handed to the transport: [send] of an
    ArrayBuffer makes a binary message, [send] of a string a text one. *)
Inductive frame :=
  | Binary (payload : list byte)
  | Text (data : jsstring).

(** The [Blob] of a [dataavailable] event; [e.data.size] is its length. *)
Record blob := { blob_bytes : list byte }.
Definition size (b : blob) : nat := length (blob_bytes b).

Inductive recording_state := inactive | recording.

Record media_recorder := {
  mimeType : option jsstring;       (* None: the browser's default *)
  audioBitsPerSecond : N;
  rec_state : recording_state;
  timeslice : option N;             (* the argument of start(), in ms *)
}.

Record media_stream := { tracks_live : bool }.

Inductive js_error := TypeError | InvalidStateError.

(** Result of a call that may throw. *)
Inductive outcome (A : Type) :=
  | Ok (a : A)
  | Throw (e : js_error).
Arguments Ok {A} a.
Arguments Throw {A} e.

(** [try { body } catch (error) { console.error(...) }] where the body
    changes nothing before the point it can throw. *)
Definition try_catch {A} (body : outcome A) (otherwise : A) : A :=
  match body with Ok a => a | Throw _ => otherwise end.

(** *** Program state: the script's globals, the DOM it writes, and the
    browser-side state its handlers observe. *)
Record state := {
  (* let mediaRecorder; let ws; let isRecording = false; let stream; *)
  mediaRecorder : option media_recorder;
  ws : option nat;                  (* a socket of [sockets], or null *)
  isRecording : bool;
  stream : option media_stream;
  (* DOM *)
  startBtn_disabled : bool;
  stopBtn_disabled : bool;
  captions : jsstring;              (* captionsDiv.textContent *)
  status_text : jsstring;           (* statusDiv.textContent *)
  status_class : jsstring;          (* statusDiv.className *)
  body_recording : bool;            (* 'recording' in document.body.classList *)
  (* browser *)
  sockets : list ready_state;       (* every WebSocket created so far *)
  wire : list (nat * frame);        (* frames accepted for transmission, oldest first *)
  awaiting : list (list byte);      (* data handlers suspended at await e.data.arrayBuffer() *)
  gum_pending : nat;                (* onopen handlers suspended at await getUserMedia() *)
  timers : nat;                     (* setTimeout callbacks not yet run *)
}.

Definition set_mediaRecorder v st :=
  {| mediaRecorder := v; ws := ws st; isRecording := isRecording st; stream := stream st;
     startBtn_disabled := startBtn_disabled st; stopBtn_disabled := stopBtn_disabled st;
     captions := captions st; status_text := status_text st; status_class := status_class st;
     body_recording := body_recording st; sockets := sockets st; wire := wire st;
     awaiting := awaiting st; gum_pending := gum_pending st; timers := timers st |}.
Definition set_ws v st :=
  {| mediaRecorder := mediaRecorder st; ws := v; isRecording := isRecording st; stream := stream st;
     startBtn_disabled := startBtn_disabled st; stopBtn_disabled := stopBtn_disabled st;
     captions := captions st; status_text := status_text st; status_class := status_class st;
     body_recording := body_recording st; sockets := sockets st; wire := wire st;
     awaiting := awaiting st; gum_pending := gum_pending st; timers := timers st |}.
Definition set_isRecording v st :=
  {| mediaRecorder := mediaRecorder st; ws := ws st; isRecording := v; stream := stream st;
     startBtn_disabled := startBtn_disabled st; stopBtn_disabled := stopBtn_disabled st;
     captions := captions st; status_text := status_text st; status_class := status_class st;
     body_recording := body_recording st; sockets := sockets st; wire := wire st;
     awaiting := awaiting st; gum_pending := gum_pending st; timers := timers st |}.
Definition set_stream v st :=
  {| mediaRecorder := mediaRecorder st; ws := ws st; isRecording := isRecording st; stream := v;
     startBtn_disabled := startBtn_disabled st; stopBtn_disabled := stopBtn_disabled st;
     captions := captions st; status_text := status_text st; status_class := status_class st;
     body_recording := body_recording st; sockets := sockets st; wire := wire st;
     awaiting := awaiting st; gum_pending := gum_pending st; timers := timers st |}.
Definition set_buttons start stop st :=
  {| mediaRecorder := mediaRecorder st; ws := ws st; isRecording := isRecording st; stream := stream st;
     startBtn_disabled := start; stopBtn_disabled := stop;
     captions := captions st; status_text := status_text st; status_class := status_class st;
     body_recording := body_recording st; sockets := sockets st; wire := wire st;
     awaiting := awaiting st; gum_pending := gum_pending st; timers := timers st |}.
Definition set_captions v st :=
  {| mediaRecorder := mediaRecorder st; ws := ws st; isRecording := isRecording st; stream := stream st;
     startBtn_disabled := startBtn_disabled st; stopBtn_disabled := stopBtn_disabled st;
     captions := v; status_text := status_text st; status_class := status_class st;
     body_recording := body_recording st; sockets := sockets st; wire := wire st;
     awaiting := awaiting st; gum_pending := gum_pending st; timers := timers st |}.
Definition set_status_text v st :=
  {| mediaRecorder := mediaRecorder st; ws := ws st; isRecording := isRecording st; stream := stream st;
     startBtn_disabled := startBtn_disabled st; stopBtn_disabled := stopBtn_disabled st;
     captions := captions st; status_text := v; status_class := status_class st;
     body_recording := body_recording st; sockets := sockets st; wire := wire st;
     awaiting := awaiting st; gum_pending := gum_pending st; timers := timers st |}.
Definition set_status_class v st :=
  {| mediaRecorder := mediaRecorder st; ws := ws st; isRecording := isRecording st; stream := stream st;
     startBtn_disabled := startBtn_disabled st; stopBtn_disabled := stopBtn_disabled st;
     captions := captions st; status_text := status_text st; status_class := v;
     body_recording := body_recording st; sockets := sockets st; wire := wire st;
     awaiting := awaiting st; gum_pending := gum_pending st; timers := timers st |}.
Definition set_body_recording v st :=
  {| mediaRecorder := mediaRecorder st; ws := ws st; isRecording := isRecording st; stream := stream st;
     startBtn_disabled := startBtn_disabled st; stopBtn_disabled := stopBtn_disabled st;
     captions := captions st; status_text := status_text st; status_class := status_class st;
     body_recording := v; sockets := sockets st; wire := wire st;
     awaiting := awaiting st; gum_pending := gum_pending st; timers := timers st |}.
Definition set_sockets v st :=
  {| mediaRecorder := mediaRecorder st; ws := ws st; isRecording := isRecording st; stream := stream st;
     startBtn_disabled := startBtn_disabled st; stopBtn_disabled := stopBtn_disabled st;
     captions := captions st; status_text := status_text st; status_class := status_class st;
     body_recording := body_recording st; sockets := v; wire := wire st;
     awaiting := awaiting st; gum_pending := gum_pending st; timers := timers st |}.
Definition set_wire v st :=
  {| mediaRecorder := mediaRecorder st; ws := ws st; isRecording := isRecording st; stream := stream st;
     startBtn_disabled := startBtn_disabled st; stopBtn_disabled := stopBtn_disabled st;
     captions := captions st; status_text := status_text st; status_class := status_class st;
     body_recording := body_recording st; sockets := sockets st; wire := v;
     awaiting := awaiting st; gum_pending := gum_pending st; timers := timers st |}.
Definition set_awaiting v st :=
  {| mediaRecorder := mediaRecorder st; ws := ws st; isRecording := isRecording st; stream := stream st;
     startBtn_disabled := startBtn_disabled st; stopBtn_disabled := stopBtn_disabled st;
     captions := captions st; status_text := status_text st; status_class := status_class st;
     body_recording := body_recording st; sockets := sockets st; wire := wire st;
     awaiting := v; gum_pending := gum_pending st; timers := timers st |}.
Definition set_gum_pending v st :=
  {| mediaRecorder := mediaRecorder st; ws := ws st; isRecording := isRecording st; stream := stream st;
     startBtn_disabled := startBtn_disabled st; stopBtn_disabled := stopBtn_disabled st;
     captions := captions st; status_text := status_text st; status_class := status_class st;
     body_recording := body_recording st; sockets := sockets st; wire := wire st;
     awaiting := awaiting st; gum_pending := v; timers := timers st |}.
Definition set_timers v st :=
  {| mediaRecorder := mediaRecorder st; ws := ws st; isRecording := isRecording st; stream := stream st;
     startBtn_disabled := startBtn_disabled st; stopBtn_disabled := stopBtn_disabled st;
     captions := captions st; status_text := status_text st; status_class := status_class st;
     body_recording := body_recording st; sockets := sockets st; wire := wire st;
     awaiting := awaiting st; gum_pending := gum_pending st; timers := v |}.

(** What index.html fixes and the script does not: the DOM as it is
    when the script starts. *)
Record page := {
  page_startBtn_disabled : bool;
  page_stopBtn_disabled : bool;
  page_captions : jsstring;
  page_status_text : jsstring;
  page_status_class : jsstring;
  page_body_recording : bool;
}.

(** The state once the script has been loaded: [isRecording] is false,
    the other globals are undefined, no socket was ever made. *)
Definition initial (p : page) : state :=
  {| mediaRecorder := None; ws := None; isRecording := false; stream := None;
     startBtn_disabled := page_startBtn_disabled p;
     stopBtn_disabled := page_stopBtn_disabled p;
     captions := page_captions p; status_text := page_status_text p;
     status_class := page_status_class p;
     body_recording := page_body_recording p; sockets := []; wire := [];
     awaiting := []; gum_pending := 0; timers := 0 |}.

(** A page with both buttons enabled and empty text nodes. *)
Definition blank_page : page :=
  {| page_startBtn_disabled := false; page_stopBtn_disabled := false;
     page_captions := []; page_status_text := [];
     page_status_class := lit "status-area"; page_body_recording := false |}.

(** *** WebSocket methods, as the WebSocket standard defines them *)

Definition readyState (s : nat) (st : state) : option ready_state := sockets st !! s.

(** [ws.send(data)]: throws InvalidStateError while CONNECTING, hands the
    frame to the transport while OPEN, and silently discards it (only
    bufferedAmount grows) while CLOSING or CLOSED. *)
Definition socket_send (s : nat) (f : frame) (st : state) : outcome state :=
  match readyState s st with
  | Some CONNECTING => Throw InvalidStateError
  | Some OPEN => Ok (set_wire (wire st ++ [(s, f)]) st)
  | _ => Ok st
  end.

(** [ws.close()]: starts the closing handshake unless already closing
    or closed. *)
Definition socket_close (s : nat) (st : state) : state :=
  match readyState s st with
  | Some CONNECTING | Some OPEN => set_sockets (<[s := CLOSING]> (sockets st)) st
  | _ => st
  end.

(** [ws && ws.readyState === WebSocket.OPEN] *)
Definition ws_open (st : state) : bool :=
  match ws st with
  | Some s => bool_decide (readyState s st = Some OPEN)
  | None => false
  end.

(** [mediaRecorder.stop()]: throws InvalidStateError on an inactive
    recorder; otherwise the recorder becomes inactive (its last
    [dataavailable] and its [stop] event are delivered later). *)
Definition recorder_stop (r : media_recorder) : outcome media_recorder :=
  match rec_state r with
  | inactive => Throw InvalidStateError
  | recording =>
      Ok {| mimeType := mimeType r; audioBitsPerSecond := audioBitsPerSecond r;
            rec_state := inactive; timeslice := timeslice r |}
  end.

(** *** The script *)

(** The Control Signal: [ws.send("END")]. *)
Definition END : jsstring := lit "END".

Definition FINAL_PREFIX : jsstring := lit "Final: ".

(** [function cleanup()] *)
Definition cleanup (st : state) : state :=
  (* Reset UI *)
  let st := set_body_recording false st in
  let st := set_status_text (lit "Stopped") st in
  let st := set_status_class (lit "status-area") st in
  let st :=
    match mediaRecorder st with
    | Some r =>
        if isRecording st then
          let st := try_catch
                      (match recorder_stop r with
                       | Ok r' => Ok (set_mediaRecorder (Some r') st)
                       | Throw e => Throw e
                       end) st in
          set_isRecording false st
        else st
    | None => st
    end in
  let st :=
    match stream st with
    | Some _ => set_stream None st   (* tracks stopped, then stream = null *)
    | None => st
    end in
  let st :=
    match ws st with
    | Some s =>
        if bool_decide (readyState s st = Some OPEN) then
          try_catch
            (match socket_send s (Text END) st with
             | Ok st' => Ok (set_timers (S (timers st')) st')   (* setTimeout(..., 500) *)
             | Throw e => Throw e
             end) st
        else st
    | None => st
    end in
  let st := set_ws None st in
  set_buttons false true st.

(** The callback [cleanup] hands to [setTimeout]; it reads the global
    [ws] when it runs. *)
Definition close_timeout (st : state) : state :=
  match ws st with
  | Some s => if bool_decide (readyState s st = Some OPEN) then socket_close s st else st
  | None => st
  end.

(** [ws.onmessage] *)
Definition onmessage (message : jsstring) (st : state) : state :=
  if startsWith message FINAL_PREFIX then
    let finalText := trim (substring 7 message) in
    if truthy finalText
    then set_captions (captions st ++ (finalText ++ lit " ")) st
    else st
  else
    let cleanText := trim message in
    if truthy cleanText
    then set_captions (captions st ++ (cleanText ++ lit " ")) st
    else st.

(** [ws.onerror] *)
Definition onerror (st : state) : state :=
  set_status_class (lit "status-area error") (set_status_text (lit "Connection Error") st).

(** [ws.onclose] *)
Definition onclose (st : state) : state :=
  cleanup (set_status_class (lit "status-area") (set_status_text (lit "Disconnected") st)).

(** [supportedTypes], in order of preference. *)
Definition supportedTypes : list jsstring :=
  [ lit "audio/webm;codecs=opus";
    lit "audio/webm";
    lit "audio/mp4;codecs=mp4a.40.2";
    lit "audio/ogg;codecs=opus" ].

(** The [for ... of] loop with its [break]; [selectedType] starts as
    the empty string. *)
Fixpoint select_type (isTypeSupported : jsstring → bool) (types : list jsstring) : jsstring :=
  match types with
  | [] => lit ""
  | type :: rest => if isTypeSupported type then type else select_type isTypeSupported rest
  end.

Definition selectedType (isTypeSupported : jsstring → bool) : jsstring :=
  select_type isTypeSupported supportedTypes.

Record recorder_options := {
  opt_mimeType : option jsstring;
  opt_audioBitsPerSecond : N;
}.

(** [{ ...(selectedType && { mimeType: selectedType }), audioBitsPerSecond: 128000 }] *)
Definition options (isTypeSupported : jsstring → bool) : recorder_options :=
  let t := selectedType isTypeSupported in
  {| opt_mimeType := if truthy t then Some t else None;
     opt_audioBitsPerSecond := 128000 |}.

(** [new MediaRecorder(stream, options)] *)
Definition new_MediaRecorder (o : recorder_options) : media_recorder :=
  {| mimeType := opt_mimeType o; audioBitsPerSecond := opt_audioBitsPerSecond o;
     rec_state := inactive; timeslice := None |}.

(** [mediaRecorder.start(ms)] on a freshly made recorder. *)
Definition recorder_start (ms : N) (r : media_recorder) : media_recorder :=
  {| mimeType := mimeType r; audioBitsPerSecond := audioBitsPerSecond r;
     rec_state := recording; timeslice := Some ms |}.

(** [ws.onopen], up to [await navigator.mediaDevices.getUserMedia(...)]. *)
Definition onopen (st : state) : state :=
  set_gum_pending (S (gum_pending st)) st.

(** [ws.onopen] after the await, when the microphone was granted. *)
Definition onopen_granted (isTypeSupported : jsstring → bool) (st : state) : state :=
  let st := set_stream (Some {| tracks_live := true |}) st in
  let r := new_MediaRecorder (options isTypeSupported) in
  let st := set_mediaRecorder (Some (recorder_start 3000 r)) st in
  set_isRecording true st.

(** [ws.onopen] after the await, when [getUserMedia] rejected: the
    catch block. *)
Definition onopen_denied (st : state) : state :=
  cleanup (set_status_class (lit "status-area error")
             (set_status_text (lit "Microphone Access Error") st)).

(** [mediaRecorder.ondataavailable], up to [await e.data.arrayBuffer()].
    The counters [chunkCount] and [totalDataSent] only feed console.log. *)
Definition ondataavailable (e : blob) (st : state) : state :=
  if bool_decide (0 < size e) && ws_open st
  then set_awaiting (awaiting st ++ [blob_bytes e]) st
  else st.

(** [mediaRecorder.ondataavailable] after the await: [ws.send(arrayBuffer)]
    inside the try; [ws] is read again here, and a null [ws] makes the
    property access throw a TypeError. *)
Definition ondataavailable_resume (arrayBuffer : list byte) (st : state) : state :=
  try_catch
    (match ws st with
     | Some s => socket_send s (Binary arrayBuffer) st
     | None => Throw TypeError
     end) st.

(** [mediaRecorder.onstop] *)
Definition recorder_onstop (st : state) : state :=
  match stream st with
  | Some _ => set_stream (Some {| tracks_live := false |}) st
  | None => st
  end.

(** [mediaRecorder.onerror] *)
Definition recorder_onerror (st : state) : state :=
  set_status_class (lit "status-area error") (set_status_text (lit "Recording Error") st).

(** [mediaRecorder.onstart]; the status text begins with U+1F3A4. *)
Definition recorder_onstart (st : state) : state :=
  let st := set_status_text ([0xD83C; 0xDFA4]%N ++ lit " Recording...") st in
  let st := set_status_class (lit "status-area recording") st in
  let st := set_captions [] st in
  set_body_recording true st.

(** [startBtn.onclick]; nothing in its try block throws. *)
Definition startBtn_onclick (st : state) : state :=
  let st := set_buttons true false st in
  let st := set_captions [] st in
  let st := set_status_text (lit "Starting...") st in
  (* ws = new WebSocket("ws://localhost:8000/ws") *)
  let s := length (sockets st) in
  let st := set_sockets (sockets st ++ [CONNECTING]) st in
  set_ws (Some s) st.

(** [stopBtn.onclick] *)
Definition stopBtn_onclick (st : state) : state :=
  cleanup (set_status_class (lit "status-area") (set_status_text (lit "Stopping...") st)).

(** [element.click()] and a user's click do nothing on a disabled button. *)
Definition startBtn_click (st : state) : state :=
  if startBtn_disabled st then st else startBtn_onclick st.
Definition stopBtn_click (st : state) : state :=
  if stopBtn_disabled st then st else stopBtn_onclick st.

(** The [beforeunload] listener. *)
Definition onbeforeunload (st : state) : state :=
  if isRecording st then cleanup st else st.

(** The [keydown] listener on a key press that satisfies its Space
    condition, and on Escape. *)
Definition onkeydown_space (st : state) : state :=
  if negb (isRecording st) then startBtn_click st else stopBtn_click st.
Definition onkeydown_escape (st : state) : state :=
  if isRecording st then stopBtn_click st else st.

(** *** The event loop: what the browser may deliver, in any order. *)
Inductive event :=
  | ClickStart
  | ClickStop
  | KeySpace
  | KeyEscape
  | BeforeUnload
  | SocketOpen (s : nat)                       (* connection established *)
  | SocketMessage (s : nat) (data : jsstring)  (* a text message from the server *)
  | SocketError (s : nat)
  | SocketClosing (s : nat)                    (* the peer started the closing handshake *)
  | SocketClose (s : nat)                      (* connection closed *)
  | UserMedia (granted : bool) (isTypeSupported : jsstring → bool)
  | RecorderStart
  | DataAvailable (e : blob)
  | ArrayBufferReady (k : nat)                 (* the k-th pending arrayBuffer() resolves *)
  | RecorderStop
  | RecorderError
  | Timeout.

(** A socket's events reach its handlers only if the socket exists. *)
Definition on_socket (s : nat) (h : state → state) (st : state) : state :=
  match readyState s st with Some _ => h st | None => st end.

Definition step (ev : event) (st : state) : state :=
  match ev with
  | ClickStart => startBtn_click st
  | ClickStop => stopBtn_click st
  | KeySpace => onkeydown_space st
  | KeyEscape => onkeydown_escape st
  | BeforeUnload => onbeforeunload st
  | SocketOpen s =>
      match readyState s st with
      | Some CONNECTING => onopen (set_sockets (<[s := OPEN]> (sockets st)) st)
      | _ => st
      end
  | SocketMessage s data => on_socket s (onmessage data) st
  | SocketError s => on_socket s onerror st
  | SocketClosing s =>
      match readyState s st with
      | Some OPEN => set_sockets (<[s := CLOSING]> (sockets st)) st
      | _ => st
      end
  | SocketClose s =>
      match readyState s st with
      | Some CLOSED | None => st
      | Some _ => onclose (set_sockets (<[s := CLOSED]> (sockets st)) st)
      end
  | UserMedia granted isTypeSupported =>
      match gum_pending st with
      | 0 => st
      | S n =>
          let st := set_gum_pending n st in
          if granted then onopen_granted isTypeSupported st else onopen_denied st
      end
  | RecorderStart => recorder_onstart st
  | DataAvailable e => ondataavailable e st
  | ArrayBufferReady k =>
      match awaiting st !! k with
      | Some buf => ondataavailable_resume buf (set_awaiting (delete k (awaiting st)) st)
      | None => st
      end
  | RecorderStop => recorder_onstop st
  | RecorderError => recorder_onerror st
  | Timeout =>
      match timers st with
      | 0 => st
      | S n => close_timeout (set_timers n st)
      end
  end.

(** Running a sequence of events, first event first. *)
Definition run (evs : list event) (st : state) : state :=
  foldl (fun st ev => step ev st) st evs.

(** The frames sent on socket [s], oldest first. *)
Definition sent_on (s : nat) (st : state) : list frame :=
  snd <$> filter (fun p => fst p = s) (wire st).

Definition is_binary (f : frame) : bool :=
  match f with Binary _ => true | Text _ => false end.

End Client.

(** ** The server side: the streaming session controller

    The server (backend/main.py) is not among the sources.  Its states,
    inputs and outputs are those of sections 3, 4.4 and 6 of the design
    description. *)
Module Server.
Import JS.

Inductive phase := Idle | Connected | Recording | Finalizing | Closed | Errored.

Inductive unit_kind := incremental | final.

(** What the controller does on the transport, in order. *)
Inductive action :=
  | Emit (k : unit_kind) (text : jsstring)   (* a Transcript Unit sent to the client *)
  | CloseTransport.

(** What the transport delivers to the controller, and the periodic
    trigger of an incremental pass. *)
Inductive input :=
  | TransportOpen
  | Fragment (bytes : list byte)
  | Trigger
  | ControlSignal
  | ClientClose
  | TransportError.

Record session := {
  state : phase;
  buffer : list byte;         (* the Session Buffer *)
  actions : list action;      (* oldest first *)
}.

Definition start : session := {| state := Idle; buffer := []; actions := [] |}.

Section Controller.

(** The Audio Decoder and the Transcription Engine are black boxes of
    the design: [None] is a DecodeError, respectively an EngineError. *)
Context {pcm : Type}.
Variable decode : list byte → option pcm.
Variable transcribe : pcm → option jsstring.

(** Modelled from the spec: a pass (glossary: one decode+transcribe
    invocation over a buffer snapshot); either step may fail. *)
Definition pass (snapshot : list byte) : option jsstring :=
  match decode snapshot with
  | Some waveform => transcribe waveform
  | None => None
  end.

(** Modelled from the spec: the Streaming Session Controller of
    backend/main.py, which is not among the sources.  Section 4.4 gives
    the transitions; section 7 says which failures end the session.
    A pass runs to completion before the next input is looked at (at
    most one pass in flight).  Section 4.4 names the transition to
    Finalizing from Recording; section 8 promises finalization after all
    sequences of fragments, the empty one too, so a Control Signal that
    arrives before any fragment is finalized the same way, over the
    empty buffer.  Any other pair of state and input for which the spec
    names no transition leaves the session as it is. *)
Definition handle (i : input) (s : session) : session :=
  match state s, i with
  | Idle, TransportOpen =>
      {| state := Connected; buffer := buffer s; actions := actions s |}
  | Connected, Fragment b
  | Recording, Fragment b =>
      {| state := Recording; buffer := buffer s ++ b; actions := actions s |}
  | Recording, Trigger =>
      match pass (buffer s) with
      | Some text =>
          {| state := Recording; buffer := buffer s;
             actions := actions s ++ [Emit incremental text] |}
      | None => s                 (* recoverable: skipped, retried on a later trigger *)
      end
  | Connected, ControlSignal
  | Recording, ControlSignal =>
      (* Finalizing: one last pass over the complete snapshot *)
      match pass (buffer s) with
      | Some text =>
          {| state := Closed; buffer := [];
             actions := actions s ++ [Emit final text; CloseTransport] |}
      | None =>
          {| state := Errored; buffer := [];
             actions := actions s ++ [CloseTransport] |}
      end
  | (Connected | Recording | Finalizing), ClientClose =>
      {| state := Closed; buffer := []; actions := actions s |}
  | (Idle | Connected | Recording | Finalizing), TransportError =>
      {| state := Errored; buffer := []; actions := actions s ++ [CloseTransport] |}
  | _, _ => s
  end.

Definition serve (inputs : list input) (s : session) : session :=
  foldl (fun s i => handle i s) s inputs.

End Controller.

Definition is_final (a : action) : bool :=
  match a with Emit final _ => true | _ => false end.

Definition is_incremental (a : action) : bool :=
  match a with Emit incremental _ => true | _ => false end.

(** The inputs between the opening of the transport and the Control
    Signal of a session that is not cut short: fragments and triggers. *)
Definition is_recording_input (i : input) : bool :=
  match i with Fragment _ | Trigger => true | _ => false end.

Definition fragment_bytes (i : input) : list byte :=
  match i with Fragment b => b | _ => [] end.

Definition is_fragment (i : input) : bool :=
  match i with Fragment _ => true | _ => false end.

(** A decoder in the manner of the real one: it accepts a buffer that
    starts with the EBML magic number of a WebM file and takes what
    follows as the waveform. *)
Definition ebml_decode (b : list byte) : option (list byte) :=
  match b with
  | x1a :: x45 :: xdf :: xa3 :: rest => Some rest
  | _ => None
  end.

(** An engine that answers every waveform with one word per sample. *)
Definition word_engine (w : list byte) : option jsstring :=
  Some (mjoin ((fun _ => lit "la ") <$> w)).

(** Three fragments of a WebM stream with a trigger after the second. *)
Definition webm_session : list input :=
  [ Fragment [x1a; x45; xdf]; Fragment [xa3; x01]; Trigger; Fragment [x02; x03] ].

(** One fragment of bytes that are not audio. *)
Definition garbage_session : list input := [ Fragment [x00; xff; x00] ].

End Server.

(** ** The behaviour as described, to compare the handlers with *)
Module Described.
Import JS Client.

(** What one received payload adds to the caption area: its trimmed text
    followed by a single space, or nothing when the trimmed text is
    empty. *)
Definition shown (payload : jsstring) : jsstring :=
  match trim payload with
  | [] => []
  | c :: text => (c :: text) ++ [32%N]
  end.

(** The payload of a message: what follows the prefix in a final
    message, the whole message otherwise. *)
Definition payload (message : jsstring) : jsstring :=
  if startsWith message FINAL_PREFIX then substring 7 message else message.

(** The one way a payload reaches the page. *)
Definition display (payload : jsstring) (st : state) : state :=
  match shown payload with
  | [] => st
  | c :: text => set_captions (captions st ++ c :: text) st
  end.

(** The handler applied to messages in arrival order. *)
Definition receive (messages : list jsstring) (st : state) : state :=
  foldl (fun st m => onmessage m st) st messages.

(** The type of a WebSocket message, all a receiver needs to look at. *)
Inductive message_type := binary_message | text_message.

Definition frame_type (f : frame) : message_type :=
  match f with Binary _ => binary_message | Text _ => text_message end.

(** The frame [cleanup] sends, if it sends one. *)
Definition end_frames (st : state) : list (nat * frame) :=
  match ws st with
  | Some s => if bool_decide (readyState s st = Some OPEN) then [(s, Text END)] else []
  | None => []
  end.

(** The frame a chunk becomes when its handler runs to the end with the
    socket as it is in [st]. *)
Definition audio_frames (e : blob) (st : state) : list (nat * frame) :=
  match ws st with
  | Some s =>
      if bool_decide (0 < size e) && bool_decide (readyState s st = Some OPEN)
      then [(s, Binary (blob_bytes e))] else []
  | None => []
  end.

(** Events through which a new session can begin: they may run
    [startBtn.onclick], which assigns a new socket to [ws]. *)
Definition starts_session (ev : event) : bool :=
  match ev with ClickStart | KeySpace => true | _ => false end.

(** [b] was handed to the data handler at some point of [evs], in a
    state that passed the handler's guard. *)
Definition passed_guard (p : page) (evs : list event) (b : list byte) : Prop :=
  ∃ before e after,
    evs = before ++ DataAvailable e :: after ∧ blob_bytes e = b ∧
    0 < size e ∧
    ∃ s, ws (run before (initial p)) = Some s ∧
         readyState s (run before (initial p)) = Some OPEN.

(** A frame on the wire, if it carries audio, carries a chunk that
    passed the guard. *)
Definition sent_passed_guard (p : page) (evs : list event) (sf : nat * frame) : Prop :=
  match snd sf with
  | Binary b => passed_guard p evs b
  | Text _ => True
  end.

(** The recorder the page holds, if any, was started with a timeslice
    of 3000 ms. *)
Definition started_every_3s (st : state) : Prop :=
  match mediaRecorder st with
  | Some r => timeslice r = Some 3000%N
  | None => True
  end.

(** The blocks of [cleanup], in source order, to reason about one at a
    time. *)
Definition reset_ui (st : state) : state :=
  set_status_class (lit "status-area")
    (set_status_text (lit "Stopped") (set_body_recording false st)).

Definition stop_recorder (st : state) : state :=
  match mediaRecorder st with
  | Some r =>
      if isRecording st then
        set_isRecording false
          (try_catch
             (match recorder_stop r with
              | Ok r' => Ok (set_mediaRecorder (Some r') st)
              | Throw e => Throw e
              end) st)
      else st
  | None => st
  end.

Definition stop_stream (st : state) : state :=
  match stream st with
  | Some _ => set_stream None st
  | None => st
  end.

Definition send_end (st : state) : state :=
  match ws st with
  | Some s =>
      if bool_decide (readyState s st = Some OPEN) then
        try_catch
          (match socket_send s (Text END) st with
           | Ok st' => Ok (set_timers (S (timers st')) st')
           | Throw e => Throw e
           end) st
      else st
  | None => st
  end.

(** The part of the state that decides what is sent and where. *)
Definition core (st : state) : option nat * list ready_state * list (nat * frame) * list (list byte) :=
  (ws st, sockets st, wire st, awaiting st).

(** The frame a suspended data handler sends when it resumes in [st]
    with the buffer [b]. *)
Definition resume_frames (b : list byte) (st : state) : list (nat * frame) :=
  match ws st with
  | Some s => if bool_decide (readyState s st = Some OPEN) then [(s, Binary b)] else []
  | None => []
  end.

(** A step that neither sends nor redirects: the socket reference, the
    wire and the suspended handlers stay, and no socket is made. *)
Definition quiet (st st' : state) : Prop :=
  ws st' = ws st ∧ length (sockets st') = length (sockets st) ∧
  wire st' = wire st ∧ awaiting st' = awaiting st.

(** What one event can do to the sending part of the state. *)
Inductive effect (ev : event) (st st' : state) : Prop :=
  | effect_quiet :
      quiet st st' → effect ev st st'
  | effect_cleanup st1 :
      quiet st st1 →
      core st' = (None, sockets st1, wire st1 ++ end_frames st1, awaiting st1) →
      effect ev st st'
  | effect_start :
      starts_session ev = true →
      core st' = (Some (length (sockets st)), sockets st ++ [CONNECTING], wire st, awaiting st) →
      effect ev st st'
  | effect_guard_passed e s :
      ev = DataAvailable e → 0 < size e →
      ws st = Some s → readyState s st = Some OPEN →
      core st' = (ws st, sockets st, wire st, awaiting st ++ [blob_bytes e]) →
      effect ev st st'
  | effect_resume k b :
      ev = ArrayBufferReady k → awaiting st !! k = Some b →
      core st' = (ws st, sockets st, wire st ++ resume_frames b st, delete k (awaiting st)) →
      effect ev st st'.

(** What a frame on the wire may be: a non-empty audio payload, or the
    Control Signal. *)
Definition well_formed_frame (f : frame) : Prop :=
  match f with
  | Binary b => b ≠ []
  | Text t => t = END
  end.

(** What holds of every state the page can get into. *)
Record consistent (st : state) : Prop := {
  ws_exists : ∀ s, ws st = Some s → s < length (sockets st);
  wire_sockets_exist : Forall (fun sf => fst sf < length (sockets st)) (wire st);
  wire_well_formed : Forall (fun sf => well_formed_frame (snd sf)) (wire st);
  awaiting_nonempty : Forall (fun b => b ≠ []) (awaiting st);
  no_end_on_ws : ∀ s, ws st = Some s → Forall (fun f => is_binary f = true) (sent_on s st);
}.

End Described.

(** ** Concrete sessions *)
Module Scenario.
Import JS Client.

(** One session up to the moment of stopping: start, connection,
    microphone granted, one chunk handed over and sent. *)
Definition session_trace : list event :=
  [ ClickStart; SocketOpen 0; UserMedia true (fun _ => true); RecorderStart;
    DataAvailable {| blob_bytes := [x52; x49; x46; x46] |}; ArrayBufferReady 0 ].

(** A recording session in progress. *)
Definition recording_session : list event :=
  [ ClickStart; SocketOpen 0; UserMedia true (fun _ => true); RecorderStart ].

(** The next session: Start pressed again and the new socket connected;
    its [getUserMedia] request is still pending. *)
Definition restart : list event := [ ClickStart; SocketOpen 1 ].

(** A chunk of the first session's recorder. *)
Definition last_chunk : blob := {| blob_bytes := [x1a; x45; xdf; xa3] |}.

(** What follows a stop when no new session is started: the recorder's
    last chunk and its stop event, the late resumption of a suspended
    handler, the close timer, the closing of the connection. *)
Definition flush_after_stop : list event :=
  [ DataAvailable last_chunk; ArrayBufferReady 0; RecorderStop; Timeout;
    SocketClosing 0; SocketClose 0 ].

(** Incremental captions as a server may send them, one of them blank. *)
Definition caption_stream : list jsstring :=
  [ lit "hello"; lit "   "; lit " hello world
" ].

End Scenario.

(** ** The keyboard listener *)
Module Keyboard.
Import JS Client.

(** What the [keydown] listener reads of its event and of the document:
    [e.code], [e.ctrlKey] and [document.activeElement.tagName]. *)
Record keydown_event := {
  code : jsstring;
  ctrlKey : bool;
  activeElement_tagName : jsstring;
}.

(** [a === b] on strings. *)
Definition strict_eq (a b : jsstring) : bool := bool_decide (a = b).

(** The condition of the listener's first [if]: Ctrl+Space, or Space
    when the focus is neither in an INPUT nor in a TEXTAREA. *)
Definition toggles (e : keydown_event) : bool :=
  (strict_eq (code e) (lit "Space") && ctrlKey e)
  || (strict_eq (code e) (lit "Space")
      && negb (strict_eq (activeElement_tagName e) (lit "INPUT"))
      && negb (strict_eq (activeElement_tagName e) (lit "TEXTAREA"))).

(** The [keydown] listener; the boolean tells whether it called
    [e.preventDefault()].  The second [if] reads [isRecording] as the
    first one left it. *)
Definition onkeydown (e : keydown_event) (st : state) : bool * state :=
  let prevented := toggles e in
  let st :=
    if toggles e then
      if negb (isRecording st) then startBtn_click st else stopBtn_click st
    else st in
  let st :=
    if strict_eq (code e) (lit "Escape") && isRecording st
    then stopBtn_click st else st in
  (prevented, st).

End Keyboard.

(** ** Views of the state used to follow a session *)
Module Session.
Import JS Client.

(** The socket reference and the two buttons. *)
Definition controls (st : state) : option nat * bool * bool :=
  (ws st, startBtn_disabled st, stopBtn_disabled st).

(** What [cleanup] and the sending of frames leave alone. *)
Definition page_view (st : state) :=
  (mediaRecorder st, isRecording st, stream st, captions st,
   status_text st, status_class st, body_recording st, gum_pending st).

(** The events by which the browser reports that the connection [s] is
    being closed or has closed. *)
Definition peer_closes (s : nat) (ev : event) : bool :=
  match ev with
  | SocketClosing s' | SocketClose s' => bool_decide (s' = s)
  | _ => false
  end.

(** Whether the recorder the page holds is recording. *)
Definition recorder_recording (st : state) : bool :=
  match mediaRecorder st with
  | Some r => match rec_state r with recording => true | inactive => false end
  | None => false
  end.

(** The statement inside the data handler's [try] after the await,
    [ws.send(arrayBuffer)], with what it returns or throws: the global
    [ws] is read here, not where the guard was evaluated. *)
Definition resume_send (arrayBuffer : list byte) (st : state) : outcome state :=
  match ws st with
  | Some s => socket_send s (Binary arrayBuffer) st
  | None => Throw TypeError
  end.

(** A data handler suspended at its await, and then: Stop; Stop and
    Start again; the peer starting to close the connection. *)
Definition suspended_then_stopped : list event :=
  Scenario.recording_session ++ [ DataAvailable Scenario.last_chunk; ClickStop ].
Definition suspended_then_restarted : list event :=
  Scenario.recording_session ++ [ DataAvailable Scenario.last_chunk; ClickStop; ClickStart ].
Definition suspended_then_closing : list event :=
  Scenario.recording_session ++ [ DataAvailable Scenario.last_chunk; SocketClosing 0 ].

(** The handlers that end by calling [cleanup()]. *)
Definition cleanup_callers : list (state → state) :=
  [ cleanup; onclose; onopen_denied; stopBtn_onclick ].

(** A session whose socket is open and whose microphone request is
    still pending. *)
Definition awaiting_microphone : list event := [ ClickStart; SocketOpen 0 ].

(** A session whose socket is still connecting. *)
Definition connecting : list event := [ ClickStart ].

(** A first session stopped and a second one begun while the first
    connection is still open. *)
Definition second_session : list event :=
  [ ClickStart; SocketOpen 0; UserMedia true (fun _ => true); RecorderStart;
    ClickStop; ClickStart; SocketOpen 1; UserMedia true (fun _ => true) ].

(** Space pressed in the page, outside any text field. *)
Definition space_key : Keyboard.keydown_event :=
  {| Keyboard.code := lit "Space"; Keyboard.ctrlKey := false;
     Keyboard.activeElement_tagName := lit "BODY" |}.

(** After a stop: the recorder's last events, the close timer, and a new
    session begun; the peer has not closed the first connection yet. *)
Definition flush_after_timer : list event :=
  [ DataAvailable {| blob_bytes := [x1a; x45] |}; RecorderStop; Timeout;
    ClickStart; SocketOpen 1; Timeout ].

End Session.

(** * Properties *)

Import JS Client Described Scenario Keyboard Session.

(** ** Strings *)

Lemma startsWith_prefix (p s : jsstring) :
  startsWith s p = true ↔ ∃ rest, s = p ++ rest.
Proof.
  revert s. induction p as [|a p IH]; intros s; simpl.
  - split; [intros _; by exists s | done].
  - destruct s as [|b s].
    + split; [done | intros [rest Hr]; discriminate].
    + rewrite andb_true_iff, N.eqb_eq, IH. split.
      * intros [-> [rest ->]]. by exists rest.
      * intros [rest Hr]. injection Hr as -> ->. eauto.
Qed.

Lemma trim_start_nil (s : jsstring) :
  trim_start s = [] ↔ forallb is_trimmed_char s = true.
Proof.
  induction s as [|c s IH]; simpl; [done|].
  destruct (is_trimmed_char c); simpl; [done|]. split; discriminate.
Qed.

Lemma trim_start_head (s : jsstring) c t :
  trim_start s = c :: t → is_trimmed_char c = false.
Proof.
  induction s as [|d s IH]; simpl; [done|].
  destruct (is_trimmed_char d) eqn:Hd; [done|]. by intros [= <- _].
Qed.

Lemma forallb_reverse {A} (f : A → bool) (l : list A) :
  forallb f (reverse l) = forallb f l.
Proof.
  induction l as [|x l IH]; [done|].
  rewrite reverse_cons, forallb_app, IH. simpl. rewrite andb_true_r. apply andb_comm.
Qed.

(** [trim] leaves nothing exactly when the string is empty or made of
    white space and line terminators only. *)
Lemma trim_nil (s : jsstring) :
  trim s = [] ↔ forallb is_trimmed_char s = true.
Proof.
  rewrite <- trim_start_nil. unfold trim, trim_end.
  destruct (trim_start s) as [|c t] eqn:E; [done|].
  split; [|done]. intros H.
  assert (Hr : trim_start (reverse (c :: t)) = []).
  { apply (f_equal reverse) in H. by rewrite reverse_involutive in H. }
  apply trim_start_nil in Hr. rewrite forallb_reverse in Hr. simpl in Hr.
  apply trim_start_head in E. rewrite E in Hr. discriminate.
Qed.

Lemma shown_nil (payload : jsstring) :
  shown payload = [] ↔ trim payload = [].
Proof. unfold shown. destruct (trim payload); [done|]. split; discriminate. Qed.

(** ** The message handler *)

Lemma onmessage_display (m : jsstring) (st : state) :
  onmessage m st = display (payload m) st.
Proof.
  unfold onmessage, display, payload, shown.
  destruct (startsWith m FINAL_PREFIX).
  - destruct (trim (substring 7 m)); done.
  - destruct (trim m); done.
Qed.

Lemma captions_display (pl : jsstring) (st : state) :
  captions (display pl st) = captions st ++ shown pl.
Proof.
  unfold display. destruct (shown pl); simpl; [by rewrite app_nil_r | done].
Qed.

Lemma captions_receive (ms : list jsstring) (st : state) :
  captions (receive ms st) = captions st ++ mjoin ((shown ∘ payload) <$> ms).
Proof.
  revert st. induction ms as [|m ms IH]; intros st; simpl.
  - by rewrite app_nil_r.
  - unfold receive in *. simpl. rewrite IH, onmessage_display, captions_display.
    by rewrite <- app_assoc.
Qed.

(** ** What each handler does to the sending part of the state *)

Lemma cleanup_blocks (st : state) :
  cleanup st =
  set_buttons false true (set_ws None (send_end (stop_stream (stop_recorder (reset_ui st))))).
Proof. reflexivity. Qed.

Lemma core_reset_ui st : core (reset_ui st) = core st.
Proof. reflexivity. Qed.

Lemma core_stop_recorder st : core (stop_recorder st) = core st.
Proof.
  unfold stop_recorder. destruct (mediaRecorder st) as [r|]; [|done].
  destruct (isRecording st); [|done].
  unfold recorder_stop. by destruct (rec_state r).
Qed.

Lemma core_stop_stream st : core (stop_stream st) = core st.
Proof. unfold stop_stream. by destruct (stream st). Qed.

Lemma core_send_end st :
  core (send_end st) = (ws st, sockets st, wire st ++ end_frames st, awaiting st).
Proof.
  unfold send_end, end_frames, core.
  destruct (ws st) as [s|] eqn:Ew; [|by rewrite app_nil_r, Ew].
  case_bool_decide as Ho; [|by rewrite app_nil_r, Ew].
  unfold socket_send. rewrite Ho. simpl. by rewrite Ew.
Qed.

Lemma end_frames_core st st' : core st = core st' → end_frames st = end_frames st'.
Proof. unfold core, end_frames, readyState. by intros [= -> -> _ _]. Qed.

Lemma core_cleanup_from st0 st :
  core st = core st0 →
  core (cleanup st) = (@None nat, sockets st0, wire st0 ++ end_frames st0, awaiting st0).
Proof.
  intros H. rewrite cleanup_blocks.
  change (core (set_buttons false true (set_ws None ?x))) with
    (@None nat, sockets x, wire x, awaiting x).
  pose proof (core_send_end (stop_stream (stop_recorder (reset_ui st)))) as Hs.
  assert (Hc : core (stop_stream (stop_recorder (reset_ui st))) = core st0).
  { by rewrite core_stop_stream, core_stop_recorder, core_reset_ui. }
  rewrite (end_frames_core _ _ Hc) in Hs.
  unfold core in Hs, Hc. injection Hs as F1 F2 F3 F4. injection Hc as E1 E2 E3 E4.
  f_equal; [f_equal; [f_equal|]|]; congruence.
Qed.

Lemma core_cleanup st :
  core (cleanup st) = (@None nat, sockets st, wire st ++ end_frames st, awaiting st).
Proof. by apply core_cleanup_from. Qed.

Lemma quiet_core st st' : core st' = core st → quiet st st'.
Proof. unfold core, quiet. intros [= -> -> -> ->]. done. Qed.

Lemma quiet_refl st : quiet st st.
Proof. by apply quiet_core. Qed.

Lemma core_onmessage m st : core (onmessage m st) = core st.
Proof.
  rewrite onmessage_display. unfold display. by destruct (shown (payload m)).
Qed.

Lemma quiet_set_sockets s r st :
  quiet st (set_sockets (<[s := r]> (sockets st)) st).
Proof. unfold quiet; simpl. by rewrite length_insert. Qed.

Lemma quiet_close_timeout st : quiet st (close_timeout st).
Proof.
  unfold close_timeout. destruct (ws st) as [s|]; [|apply quiet_refl].
  case_bool_decide as Ho; [|apply quiet_refl].
  unfold socket_close. rewrite Ho. apply quiet_set_sockets.
Qed.

Lemma effect_cleanup_ui ev st st1 :
  core st1 = core st → effect ev st (cleanup st1).
Proof.
  intros Hc. eapply (effect_cleanup _ _ _ st); [apply quiet_refl|].
  by apply core_cleanup_from.
Qed.

Lemma effect_startBtn_click ev st :
  starts_session ev = true → effect ev st (startBtn_click st).
Proof.
  intros Hs. unfold startBtn_click.
  destruct (startBtn_disabled st); [by apply effect_quiet, quiet_core|].
  by apply effect_start.
Qed.

Lemma effect_stopBtn_click ev st : effect ev st (stopBtn_click st).
Proof.
  unfold stopBtn_click.
  destruct (stopBtn_disabled st); [by apply effect_quiet, quiet_core|].
  by apply effect_cleanup_ui.
Qed.

Lemma step_effect ev st : effect ev st (step ev st).
Proof.
  destruct ev as [| | | | |s|s data|s|s|s|granted sup| |e|k| | | ]; simpl.
  - by apply effect_startBtn_click.
  - apply effect_stopBtn_click.
  - unfold onkeydown_space. destruct (isRecording st); simpl.
    + apply effect_stopBtn_click.
    + by apply effect_startBtn_click.
  - unfold onkeydown_escape. destruct (isRecording st).
    + apply effect_stopBtn_click.
    + by apply effect_quiet, quiet_core.
  - unfold onbeforeunload. destruct (isRecording st).
    + by apply effect_cleanup_ui.
    + by apply effect_quiet, quiet_core.
  - destruct (readyState s st) as [[]|]; try by apply effect_quiet, quiet_core.
    apply effect_quiet. unfold onopen, quiet; simpl. by rewrite length_insert.
  - unfold on_socket. destruct (readyState s st); [|by apply effect_quiet, quiet_core].
    apply effect_quiet, quiet_core, core_onmessage.
  - unfold on_socket. destruct (readyState s st); by apply effect_quiet, quiet_core.
  - destruct (readyState s st) as [[]|]; try by apply effect_quiet, quiet_core.
    apply effect_quiet, quiet_set_sockets.
  - destruct (readyState s st) as [[]|]; try by apply effect_quiet, quiet_core.
    all: unfold onclose; eapply effect_cleanup;
      [apply (quiet_set_sockets s CLOSED)|by apply core_cleanup_from].
  - destruct (gum_pending st) as [|n]; [by apply effect_quiet, quiet_core|].
    destruct granted.
    + by apply effect_quiet, quiet_core.
    + by apply effect_cleanup_ui.
  - by apply effect_quiet, quiet_core.
  - unfold ondataavailable, ws_open.
    case_bool_decide as Hsz; simpl; [|by apply effect_quiet, quiet_core].
    destruct (ws st) as [s|] eqn:Ew; [|by apply effect_quiet, quiet_core].
    case_bool_decide as Ho; [|by apply effect_quiet, quiet_core].
    eapply effect_guard_passed; done.
  - destruct (awaiting st !! k) as [b|] eqn:Ek; [|by apply effect_quiet, quiet_core].
    eapply effect_resume; [done|exact Ek|].
    unfold ondataavailable_resume, resume_frames, try_catch, socket_send, readyState, core; simpl.
    destruct (ws st) as [s|] eqn:Ew; simpl; [|by rewrite app_nil_r, Ew].
    case_bool_decide as Ho.
    + rewrite Ho. simpl. by rewrite Ew.
    + destruct (sockets st !! s) as [[]|]; simpl; rewrite ?app_nil_r, ?Ew; done.
  - unfold recorder_onstop. destruct (stream st); by apply effect_quiet, quiet_core.
  - by apply effect_quiet, quiet_core.
  - destruct (timers st) as [|n]; [by apply effect_quiet, quiet_core|].
    apply effect_quiet.
    pose proof (quiet_close_timeout (set_timers n st)) as Hq.
    unfold quiet in *. simpl in Hq. done.
Qed.

(** ** States the page can get into *)

Lemma run_app (evs evs' : list event) (st : state) :
  run (evs ++ evs') st = run evs' (run evs st).
Proof. apply foldl_app. Qed.

Lemma run_snoc (evs : list event) (ev : event) (st : state) :
  run (evs ++ [ev]) st = step ev (run evs st).
Proof. by rewrite run_app. Qed.

Lemma sent_on_wire_app (s : nat) (st st' : state) (fs : list (nat * frame)) :
  wire st' = wire st ++ fs →
  sent_on s st' = sent_on s st ++ (snd <$> filter (fun p => fst p = s) fs).
Proof. unfold sent_on. intros ->. by rewrite filter_app, fmap_app. Qed.

Lemma sent_on_wire (s : nat) (st st' : state) :
  wire st' = wire st → sent_on s st' = sent_on s st.
Proof. unfold sent_on. by intros ->. Qed.

Lemma sent_on_fresh (s : nat) (st : state) :
  Forall (fun sf => fst sf < length (sockets st)) (wire st) →
  length (sockets st) ≤ s → sent_on s st = [].
Proof.
  unfold sent_on. intros Hw Hs.
  induction Hw as [|[s' f] w Hlt _ IH]; [done|].
  rewrite filter_cons. simpl in *. case_decide; [lia|done].
Qed.

Lemma end_frames_cases (st : state) :
  end_frames st = [] ∨
  ∃ s, ws st = Some s ∧ readyState s st = Some OPEN ∧ end_frames st = [(s, Text END)].
Proof.
  unfold end_frames. destruct (ws st) as [s|]; [|by left].
  case_bool_decide; [right; eauto|by left].
Qed.

Lemma resume_frames_cases (b : list byte) (st : state) :
  resume_frames b st = [] ∨
  ∃ s, ws st = Some s ∧ readyState s st = Some OPEN ∧ resume_frames b st = [(s, Binary b)].
Proof.
  unfold resume_frames. destruct (ws st) as [s|]; [|by left].
  case_bool_decide; [right; eauto|by left].
Qed.

Ltac core_eqs H :=
  unfold core in H;
  let Hws := fresh "Hws" in let Hso := fresh "Hso" in
  let Hwi := fresh "Hwi" in let Haw := fresh "Haw" in
  injection H as Hws Hso Hwi Haw.

Lemma consistent_initial (p : page) : consistent (initial p).
Proof. split; simpl; try done; constructor. Qed.

Lemma consistent_quiet (st st' : state) :
  quiet st st' → consistent st → consistent st'.
Proof.
  intros (Hws & Hlen & Hwi & Haw) [C1 C2 C3 C4 C5].
  split; rewrite ?Hws, ?Hlen, ?Hwi, ?Haw; try done.
  intros s Hs. rewrite (sent_on_wire s st st' Hwi). by apply C5.
Qed.

Lemma consistent_effect (ev : event) (st st' : state) :
  effect ev st st' → consistent st → consistent st'.
Proof.
  intros [Hq|st1 Hq Hc|Hs Hc|e s -> Hsz Hw Ho Hc|k b -> Hk Hc] Hst.
  - by eapply consistent_quiet.
  - apply (consistent_quiet _ _ Hq) in Hst as [C1 C2 C3 C4 C5]. core_eqs Hc.
    split; rewrite ?Hws, ?Hso, ?Hwi, ?Haw; try done.
    + apply Forall_app; split; [done|].
      destruct (end_frames_cases st1) as [->|(s & Hs & _ & ->)]; [constructor|].
      repeat constructor. simpl. by apply C1.
    + apply Forall_app; split; [done|].
      destruct (end_frames_cases st1) as [->|(s & Hs & _ & ->)]; by repeat constructor.
  - destruct Hst as [C1 C2 C3 C4 C5]. core_eqs Hc.
    split; rewrite ?Hws, ?Hso, ?Hwi, ?Haw, ?length_app; simpl; try done.
    + intros s [= <-]. lia.
    + eapply Forall_impl; [exact C2|]. simpl. lia.
    + intros s [= <-]. rewrite (sent_on_wire _ st st' Hwi).
      by rewrite sent_on_fresh.
  - destruct Hst as [C1 C2 C3 C4 C5]. core_eqs Hc.
    split; rewrite ?Hws, ?Hso, ?Hwi, ?Haw; try done.
    + apply Forall_app; split; [done|]. repeat constructor.
      unfold size in Hsz. destruct (blob_bytes e); simpl in *; [lia|done].
    + intros s' Hs'. rewrite (sent_on_wire _ st st' Hwi). by apply C5.
  - destruct Hst as [C1 C2 C3 C4 C5]. core_eqs Hc.
    assert (Hb : b ≠ []).
    { eapply (Forall_lookup_1 _ _ _ _ C4 Hk). }
    split; rewrite ?Hws, ?Hso, ?Hwi, ?Haw; try done.
    + apply Forall_app; split; [done|].
      destruct (resume_frames_cases b st) as [->|(s & Hs & _ & ->)]; [constructor|].
      repeat constructor. simpl. by apply C1.
    + apply Forall_app; split; [done|].
      destruct (resume_frames_cases b st) as [->|(s & Hs & _ & ->)]; by repeat constructor.
    + by apply Forall_delete.
    + intros s Hs. rewrite (sent_on_wire_app s st st' _ Hwi).
      apply Forall_app; split; [by apply C5|].
      destruct (resume_frames_cases b st) as [->|(s' & Hs' & _ & ->)]; [constructor|].
      rewrite filter_cons; simpl. case_decide; by repeat constructor.
Qed.

Lemma consistent_step (ev : event) (st : state) :
  consistent st → consistent (step ev st).
Proof. apply consistent_effect with ev, step_effect. Qed.

Lemma consistent_run (evs : list event) (st : state) :
  consistent st → consistent (run evs st).
Proof.
  revert st. induction evs as [|ev evs IH]; intros st Hst; [done|].
  simpl. apply IH. by apply consistent_step.
Qed.

(** ** A socket the script has let go of *)

Lemma released_effect (s : nat) (ev : event) (st st' : state) :
  effect ev st st' →
  ws st ≠ Some s → s < length (sockets st) →
  ws st' ≠ Some s ∧ s < length (sockets st') ∧ sent_on s st' = sent_on s st.
Proof.
  intros [Hq|st1 Hq Hc|Hs Hc|e s' -> Hsz Hw Ho Hc|k b -> Hk Hc] Hne Hlt.
  - destruct Hq as (Hws & Hlen & Hwi & Haw).
    rewrite Hws, Hlen. by rewrite (sent_on_wire s st st' Hwi).
  - destruct Hq as (Hws1 & Hlen1 & Hwi1 & Haw1). core_eqs Hc.
    rewrite Hws, Hso, Hlen1. split; [done|]. split; [done|].
    rewrite (sent_on_wire_app s st1 st' _ Hwi), (sent_on_wire s st st1 Hwi1).
    destruct (end_frames_cases st1) as [->|(s' & Hs' & _ & ->)]; simpl.
    + by rewrite app_nil_r.
    + rewrite filter_cons; simpl. case_decide as Hd; [|by rewrite app_nil_r].
      subst s'. by rewrite Hws1 in Hs'.
  - core_eqs Hc. rewrite Hws, Hso, length_app. simpl.
    split; [intros [= <-]; lia|]. split; [lia|]. by apply sent_on_wire.
  - core_eqs Hc. rewrite Hws, Hso. by rewrite (sent_on_wire s st st' Hwi).
  - core_eqs Hc. rewrite Hws, Hso. split; [done|]. split; [done|].
    rewrite (sent_on_wire_app s st st' _ Hwi).
    destruct (resume_frames_cases b st) as [->|(s' & Hs' & _ & ->)]; simpl.
    + by rewrite app_nil_r.
    + rewrite filter_cons; simpl. case_decide as Hd; [|by rewrite app_nil_r].
      subst s'. done.
Qed.

Lemma released_run (s : nat) (evs : list event) (st : state) :
  ws st ≠ Some s → s < length (sockets st) →
  sent_on s (run evs st) = sent_on s st.
Proof.
  revert st. induction evs as [|ev evs IH]; intros st Hne Hlt; [done|]. simpl.
  destruct (released_effect s ev st (step ev st) (step_effect ev st) Hne Hlt)
    as (Hne' & Hlt' & <-).
  by apply IH.
Qed.

Lemma ws_cleanup (st : state) : ws (cleanup st) = None.
Proof. reflexivity. Qed.

Lemma sockets_cleanup (st : state) : sockets (cleanup st) = sockets st.
Proof. exact (f_equal (fun c => snd (fst (fst c))) (core_cleanup st)). Qed.

Lemma wire_cleanup (st : state) : wire (cleanup st) = wire st ++ end_frames st.
Proof. exact (f_equal (fun c => snd (fst c)) (core_cleanup st)). Qed.

Lemma cleanup_sends_end (s : nat) (st : state) :
  ws st = Some s → readyState s st = Some OPEN →
  wire (cleanup st) = wire st ++ [(s, Text END)].
Proof.
  intros Hw Ho. rewrite wire_cleanup.
  unfold end_frames. rewrite Hw. by rewrite bool_decide_eq_true_2.
Qed.

(** C1. When recording stops with the socket open, the client sends the
    Control Signal [END] exactly once on that connection, after every
    audio fragment it sent there, and nothing is sent on the connection
    afterwards, whatever happens next. *)
Theorem end_sent_once_after_last_fragment (p : page) (evs : list event) (s : nat) :
  ws (run evs (initial p)) = Some s →
  readyState s (run evs (initial p)) = Some OPEN →
  Forall (fun f => is_binary f = true) (sent_on s (run evs (initial p))) ∧
  sent_on s (cleanup (run evs (initial p))) =
    sent_on s (run evs (initial p)) ++ [Text END] ∧
  ∀ later : list event,
    sent_on s (run later (cleanup (run evs (initial p)))) =
      sent_on s (run evs (initial p)) ++ [Text END].
Proof.
  intros Hw Ho.
  pose proof (consistent_run evs _ (consistent_initial p)) as [C1 _ _ _ C5].
  assert (Hend : sent_on s (cleanup (run evs (initial p))) =
                 sent_on s (run evs (initial p)) ++ [Text END]).
  { rewrite (sent_on_wire_app s _ _ _ (cleanup_sends_end s _ Hw Ho)).
    rewrite filter_cons; simpl. by rewrite decide_True. }
  split; [by apply C5|]. split; [done|].
  intros later. rewrite <- Hend. apply released_run.
  - by rewrite ws_cleanup.
  - rewrite sockets_cleanup. by apply C1.
Qed.

Lemma end_sent_once_witness :
  Forall (fun f => is_binary f = true) (sent_on 0 (run session_trace (initial blank_page))) ∧
  sent_on 0 (cleanup (run session_trace (initial blank_page))) =
    sent_on 0 (run session_trace (initial blank_page)) ++ [Text END] ∧
  ∀ later : list event,
    sent_on 0 (run later (cleanup (run session_trace (initial blank_page)))) =
      sent_on 0 (run session_trace (initial blank_page)) ++ [Text END].
Proof.
  apply (end_sent_once_after_last_fragment blank_page session_trace 0); reflexivity.
Defined.

Example session_trace_wire :
  wire (cleanup (run session_trace (initial blank_page))) =
  [(0, Binary [x52; x49; x46; x46]); (0, Text END)].
Proof. reflexivity. Qed.

(** ** After [cleanup], until the next session starts *)

Lemma idle_effect (ev : event) (st st' : state) :
  effect ev st st' → starts_session ev = false → ws st = None →
  ws st' = None ∧ wire st' = wire st.
Proof.
  intros [Hq|st1 Hq Hc|Hs Hc|e s -> Hsz Hw Ho Hc|k b -> Hk Hc] Hns Hnull.
  - destruct Hq as (Hws & _ & Hwi & _). by rewrite Hws, Hwi.
  - destruct Hq as (Hws1 & _ & Hwi1 & _). core_eqs Hc.
    rewrite Hws, Hwi, Hwi1. split; [done|].
    unfold end_frames. rewrite Hws1, Hnull. apply app_nil_r.
  - congruence.
  - congruence.
  - core_eqs Hc. rewrite Hws, Hwi. split; [done|].
    unfold resume_frames. rewrite Hnull. apply app_nil_r.
Qed.

Lemma idle_run (evs : list event) (st : state) :
  Forall (fun ev => starts_session ev = false) evs → ws st = None →
  ws (run evs st) = None ∧ wire (run evs st) = wire st.
Proof.
  intros Hevs. revert st.
  induction Hevs as [|ev evs Hev _ IH]; intros st Hnull; [done|]. simpl.
  destruct (idle_effect ev st _ (step_effect ev st) Hev Hnull) as [Hnull' <-].
  by apply IH.
Qed.

Lemma ondataavailable_null (e : blob) (st : state) :
  ws st = None → ondataavailable e st = st.
Proof.
  intros Hnull. unfold ondataavailable, ws_open. rewrite Hnull.
  by rewrite andb_false_r.
Qed.

Lemma ondataavailable_resume_null (b : list byte) (st : state) :
  ws st = None → ondataavailable_resume b st = st.
Proof. intros Hnull. unfold ondataavailable_resume. by rewrite Hnull. Qed.

(** C6 (as amended). Once [cleanup] has run, and for as long as no new
    session is started, the global socket reference stays null, so the
    chunk the stopped recorder still delivers is skipped by the
    handler's guard, a handler that was suspended at its await throws at
    [ws.send] into its catch block, and nothing more reaches the wire.
    On the connection that was stopped nothing is sent afterwards, new
    session or not. *)
Theorem chunks_after_cleanup_are_dropped (p : page) (before after : list event) :
  Forall (fun ev => starts_session ev = false) after →
  ws (run after (cleanup (run before (initial p)))) = None ∧
  wire (run after (cleanup (run before (initial p)))) =
    wire (cleanup (run before (initial p))) ∧
  (∀ e : blob,
     ondataavailable e (run after (cleanup (run before (initial p)))) =
     run after (cleanup (run before (initial p)))) ∧
  (∀ b : list byte,
     ondataavailable_resume b (run after (cleanup (run before (initial p)))) =
     run after (cleanup (run before (initial p)))) ∧
  (∀ (s : nat) (later : list event),
     ws (run before (initial p)) = Some s →
     sent_on s (run later (cleanup (run before (initial p)))) =
     sent_on s (cleanup (run before (initial p)))).
Proof.
  intros Hafter.
  destruct (idle_run after (cleanup (run before (initial p))) Hafter (ws_cleanup _))
    as [Hnull Hwire].
  split; [done|]. split; [done|].
  split; [intros e; by apply ondataavailable_null|].
  split; [intros b; by apply ondataavailable_resume_null|].
  intros s later Hs. apply released_run.
  - by rewrite ws_cleanup.
  - rewrite sockets_cleanup.
    by apply (ws_exists _ (consistent_run before _ (consistent_initial p))).
Qed.

Lemma chunks_after_cleanup_witness :
  ws (run flush_after_stop (cleanup (run session_trace (initial blank_page)))) = None ∧
  wire (run flush_after_stop (cleanup (run session_trace (initial blank_page)))) =
    wire (cleanup (run session_trace (initial blank_page))) ∧
  (∀ e : blob,
     ondataavailable e (run flush_after_stop (cleanup (run session_trace (initial blank_page)))) =
     run flush_after_stop (cleanup (run session_trace (initial blank_page)))) ∧
  (∀ b : list byte,
     ondataavailable_resume b (run flush_after_stop (cleanup (run session_trace (initial blank_page)))) =
     run flush_after_stop (cleanup (run session_trace (initial blank_page)))) ∧
  (∀ (s : nat) (later : list event),
     ws (run session_trace (initial blank_page)) = Some s →
     sent_on s (run later (cleanup (run session_trace (initial blank_page)))) =
     sent_on s (cleanup (run session_trace (initial blank_page)))).
Proof.
  apply (chunks_after_cleanup_are_dropped blank_page session_trace flush_after_stop).
  repeat constructor.
Defined.

(** C6 as stated fails: a chunk of the stopped recorder is transmitted
    when a new session has opened its socket before the chunk's handler
    runs (first trace) or before its suspended handler resumes (second
    trace); it then goes out on the new connection. *)
Lemma stopped_chunk_sent_in_next_session :
  wire (run (recording_session ++ [ClickStop] ++ restart ++
             [DataAvailable last_chunk; ArrayBufferReady 0]) (initial blank_page)) =
    [(0, Text END); (1, Binary (blob_bytes last_chunk))] ∧
  wire (run (recording_session ++ [DataAvailable last_chunk; ClickStop] ++ restart ++
             [ArrayBufferReady 0]) (initial blank_page)) =
    [(0, Text END); (1, Binary (blob_bytes last_chunk))].
Proof. split; reflexivity. Qed.

(** ** The data handler *)

Lemma passed_guard_later (p : page) (evs : list event) (ev : event) (b : list byte) :
  passed_guard p evs b → passed_guard p (evs ++ [ev]) b.
Proof.
  intros (before & e & after & -> & He & Hsz & Hs).
  exists before, e, (after ++ [ev]). split; [|done].
  by rewrite <- app_assoc.
Qed.

Lemma guard_provenance (p : page) (evs : list event) :
  Forall (passed_guard p evs) (awaiting (run evs (initial p))) ∧
  Forall (sent_passed_guard p evs) (wire (run evs (initial p))).
Proof.
  induction evs as [|ev evs [IHa IHw]] using rev_ind; [by split; constructor|].
  rewrite run_snoc.
  assert (IHa' : Forall (passed_guard p (evs ++ [ev])) (awaiting (run evs (initial p)))).
  { eapply Forall_impl; [exact IHa|]. intros b. apply passed_guard_later. }
  assert (IHw' : Forall (sent_passed_guard p (evs ++ [ev])) (wire (run evs (initial p)))).
  { eapply Forall_impl; [exact IHw|]. intros [s [b|t]]; [|done].
    apply passed_guard_later. }
  pose proof (step_effect ev (run evs (initial p))) as He.
  generalize dependent (step ev (run evs (initial p))). intros st' He.
  destruct He as [Hq|st1 Hq Hc|Hs Hc|e s -> Hsz Hw Ho Hc|k b -> Hk Hc].
  - destruct Hq as (_ & _ & -> & ->). done.
  - destruct Hq as (_ & _ & Hwi1 & Haw1). core_eqs Hc.
    rewrite Haw, Haw1, Hwi, Hwi1. split; [done|].
    apply Forall_app; split; [done|].
    destruct (end_frames_cases st1) as [->|(s & _ & _ & ->)]; by repeat constructor.
  - core_eqs Hc. by rewrite Haw, Hwi.
  - core_eqs Hc. rewrite Haw, Hwi. split; [|done].
    apply Forall_app; split; [done|]. repeat constructor.
    exists evs, e, []. split; [done|]. split; [done|]. split; [done|]. by exists s.
  - core_eqs Hc. rewrite Haw, Hwi. split; [by apply Forall_delete|].
    apply Forall_app; split; [done|].
    destruct (resume_frames_cases b (run evs (initial p))) as [->|(s & _ & _ & ->)];
      [constructor|].
    repeat constructor. unfold sent_passed_guard; simpl.
    exact (Forall_lookup_1 _ _ _ _ IHa' Hk).
Qed.

(** C7 (as amended). The data handler hands a chunk on for sending
    only if the chunk is not empty and the socket exists and is OPEN
    when the handler checks; otherwise it does nothing.  The check
    itself sends nothing.  Every audio frame the client ever puts on the
    wire is a chunk that passed this check, so no audio frame is empty.
    The send itself is made after the await, without a second check, on
    whatever the global [ws] then is: on null it throws a TypeError and
    on a CONNECTING socket an InvalidStateError, both into the handler's
    catch; on a CLOSING or CLOSED socket it returns and the data is
    discarded; only on an OPEN socket is the chunk transmitted. *)
Theorem data_handler_guard
    (e : blob) (b : list byte) (st : state) (p : page) (evs : list event) :
  wire (ondataavailable e st) = wire st ∧
  ((0 < size e ∧ (∃ s, ws st = Some s ∧ readyState s st = Some OPEN) ∧
    ondataavailable e st = set_awaiting (awaiting st ++ [blob_bytes e]) st)
   ∨ (¬ (0 < size e ∧ ∃ s, ws st = Some s ∧ readyState s st = Some OPEN) ∧
      ondataavailable e st = st)) ∧
  Forall (fun sf => match snd sf with
                    | Binary b => b ≠ [] ∧ passed_guard p evs b
                    | Text _ => True
                    end) (wire (run evs (initial p))) ∧
  ondataavailable_resume b st = try_catch (resume_send b st) st ∧
  match ws st with
  | None =>
      resume_send b st = Throw TypeError ∧ ondataavailable_resume b st = st
  | Some s =>
      match readyState s st with
      | Some OPEN =>
          wire (ondataavailable_resume b st) = wire st ++ [(s, Binary b)]
      | Some CONNECTING =>
          resume_send b st = Throw InvalidStateError ∧ ondataavailable_resume b st = st
      | _ =>
          resume_send b st = Ok st ∧ ondataavailable_resume b st = st
      end
  end.
Proof.
  split; [|split; [|split; [|split; [done|]]]]; cycle 3.
  { unfold ondataavailable_resume, resume_send, try_catch, socket_send.
    destruct (ws st) as [s|]; [|done].
    by destruct (readyState s st) as [[]|]. }
  - unfold ondataavailable. by destruct (_ && _).
  - unfold ondataavailable, ws_open.
    case_bool_decide as Hsz; simpl.
    + destruct (ws st) as [s|] eqn:Ew.
      * case_bool_decide as Ho; [left; eauto|].
        right. split; [|done]. intros (_ & s' & [= <-] & Ho'). done.
      * right. split; [|done]. by intros (_ & s' & [=] & _).
    + right. split; [|done]. by intros [? _].
  - destruct (guard_provenance p evs) as [_ Hw].
    pose proof (wire_well_formed _ (consistent_run evs _ (consistent_initial p))) as Hwf.
    apply Forall_forall. intros [s [c|t]] Hin; [|done]. simpl.
    rewrite Forall_forall in Hw, Hwf.
    split; [exact (Hwf _ Hin)|exact (Hw _ Hin)].
Qed.

(** C7 as stated fails: the handler does call [ws.send] on sockets that
    are not OPEN.  With a handler suspended at its await, after Stop the
    call is made on null; after Stop and Start on the new, CONNECTING
    socket; after the peer began to close, on the CLOSING socket.  In
    none of the three is anything transmitted. *)
Lemma send_called_on_socket_not_open :
  (awaiting (run suspended_then_stopped (initial blank_page)) =
     [blob_bytes last_chunk] ∧
   ws (run suspended_then_stopped (initial blank_page)) = None ∧
   resume_send (blob_bytes last_chunk) (run suspended_then_stopped (initial blank_page)) =
     Throw TypeError) ∧
  (awaiting (run suspended_then_restarted (initial blank_page)) =
     [blob_bytes last_chunk] ∧
   ws (run suspended_then_restarted (initial blank_page)) = Some 1 ∧
   readyState 1 (run suspended_then_restarted (initial blank_page)) = Some CONNECTING ∧
   resume_send (blob_bytes last_chunk) (run suspended_then_restarted (initial blank_page)) =
     Throw InvalidStateError) ∧
  (awaiting (run suspended_then_closing (initial blank_page)) =
     [blob_bytes last_chunk] ∧
   ws (run suspended_then_closing (initial blank_page)) = Some 0 ∧
   readyState 0 (run suspended_then_closing (initial blank_page)) = Some CLOSING ∧
   resume_send (blob_bytes last_chunk) (run suspended_then_closing (initial blank_page)) =
     Ok (run suspended_then_closing (initial blank_page)) ∧
   wire (run (suspended_then_closing ++ [ArrayBufferReady 0]) (initial blank_page)) = []).
Proof.
  split; [|split]; repeat (split; [vm_compute; reflexivity|]); vm_compute; reflexivity.
Qed.

(** ** Message types on the wire *)

Lemma wire_ondataavailable_resume (b : list byte) (st : state) :
  wire (ondataavailable_resume b st) = wire st ++ resume_frames b st.
Proof.
  unfold ondataavailable_resume, resume_frames, try_catch, socket_send.
  destruct (ws st) as [s|]; [|by rewrite app_nil_r].
  case_bool_decide as Ho.
  - by rewrite Ho.
  - destruct (readyState s st) as [[]|]; simpl; by rewrite ?app_nil_r.
Qed.

(** C2. The data handler sends a chunk as a binary message and
    [cleanup] sends the Control Signal as the text message [END].  On
    the wire of every session a binary message is therefore an audio
    chunk and a text message is the Control Signal: the message type
    alone tells them apart, whatever bytes a chunk holds. *)
Theorem control_signal_distinct_by_type
    (p : page) (evs : list event) (st : state) (b : list byte) :
  wire (ondataavailable_resume b st) = wire st ++ resume_frames b st ∧
  Forall (fun sf => snd sf = Binary b) (resume_frames b st) ∧
  wire (cleanup st) = wire st ++ end_frames st ∧
  Forall (fun sf => snd sf = Text END) (end_frames st) ∧
  Forall (fun sf => match frame_type (snd sf) with
                    | binary_message => ∃ c, snd sf = Binary c ∧ passed_guard p evs c
                    | text_message => snd sf = Text END
                    end) (wire (run evs (initial p))) ∧
  frame_type (Binary b) = binary_message ∧
  frame_type (Text END) = text_message.
Proof.
  split; [apply wire_ondataavailable_resume|].
  split; [destruct (resume_frames_cases b st) as [->|(s & _ & _ & ->)]; by repeat constructor|].
  split; [apply wire_cleanup|].
  split; [destruct (end_frames_cases st) as [->|(s & _ & _ & ->)]; by repeat constructor|].
  split; [|done].
  destruct (guard_provenance p evs) as [_ Hw].
  pose proof (wire_well_formed _ (consistent_run evs _ (consistent_initial p))) as Hwf.
  rewrite Forall_forall in Hw, Hwf. apply Forall_forall.
  intros [s [c|t]] Hin; simpl.
  - exists c. split; [done|]. exact (Hw _ Hin).
  - f_equal. exact (Hwf _ Hin).
Qed.

(** ** The recorder *)

Lemma mediaRecorder_stop_recorder (st : state) :
  started_every_3s st → started_every_3s (stop_recorder st).
Proof.
  unfold started_every_3s, stop_recorder.
  destruct (mediaRecorder st) as [r|] eqn:Er; [|by rewrite Er].
  destruct (isRecording st); [|by rewrite Er].
  unfold recorder_stop. destruct (rec_state r); simpl; by rewrite ?Er.
Qed.

Lemma mediaRecorder_send_end (st : state) :
  mediaRecorder (send_end st) = mediaRecorder st.
Proof.
  unfold send_end. destruct (ws st) as [s|]; [|done].
  case_bool_decide as Ho; [|done]. unfold socket_send. by rewrite Ho.
Qed.

Lemma mediaRecorder_stop_stream (st : state) :
  mediaRecorder (stop_stream st) = mediaRecorder st.
Proof. unfold stop_stream. by destruct (stream st). Qed.

Lemma started_every_3s_cleanup (st st0 : state) :
  mediaRecorder st = mediaRecorder st0 →
  started_every_3s st0 → started_every_3s (cleanup st).
Proof.
  intros Hm H0. rewrite cleanup_blocks.
  assert (H1 : started_every_3s (stop_recorder (reset_ui st))).
  { apply mediaRecorder_stop_recorder. unfold started_every_3s in *.
    change (mediaRecorder (reset_ui st)) with (mediaRecorder st). by rewrite Hm. }
  unfold started_every_3s in *.
  change (mediaRecorder (set_buttons false true (set_ws None ?x))) with (mediaRecorder x).
  by rewrite mediaRecorder_send_end, mediaRecorder_stop_stream.
Qed.

Lemma started_every_3s_same (st st' : state) :
  mediaRecorder st' = mediaRecorder st → started_every_3s st → started_every_3s st'.
Proof. unfold started_every_3s. by intros ->. Qed.

Lemma mediaRecorder_ondataavailable_resume (b : list byte) (st : state) :
  mediaRecorder (ondataavailable_resume b st) = mediaRecorder st.
Proof.
  unfold ondataavailable_resume, try_catch, socket_send.
  destruct (ws st) as [s|]; [|done].
  by destruct (readyState s st) as [[]|].
Qed.

Lemma started_every_3s_step (ev : event) (st : state) :
  started_every_3s st → started_every_3s (step ev st).
Proof.
  intros H.
  assert (Hstop : started_every_3s (stopBtn_click st)).
  { unfold stopBtn_click. destruct (stopBtn_disabled st); [done|].
    by apply started_every_3s_cleanup with st. }
  assert (Hstart : started_every_3s (startBtn_click st)).
  { unfold startBtn_click. by destruct (startBtn_disabled st). }
  destruct ev as [| | | | |s|s data|s|s|s|granted sup| |e|k| | | ]; simpl; try done.
  - unfold onkeydown_space. by destruct (isRecording st).
  - unfold onkeydown_escape. by destruct (isRecording st).
  - unfold onbeforeunload. destruct (isRecording st); [|done].
    by apply started_every_3s_cleanup with st.
  - by destruct (readyState s st) as [[]|].
  - unfold on_socket. destruct (readyState s st); [|done].
    rewrite onmessage_display. unfold display. by destruct (shown _).
  - unfold on_socket. by destruct (readyState s st).
  - by destruct (readyState s st) as [[]|].
  - destruct (readyState s st) as [[]|]; try done.
    all: by apply started_every_3s_cleanup with st.
  - destruct (gum_pending st) as [|n]; [done|]. destruct granted; [done|].
    by apply started_every_3s_cleanup with st.
  - unfold ondataavailable. by destruct (_ && _).
  - destruct (awaiting st !! k) as [b|]; [|done].
    eapply started_every_3s_same; [|exact H].
    by rewrite mediaRecorder_ondataavailable_resume.
  - unfold recorder_onstop. by destruct (stream st).
  - destruct (timers st) as [|n]; [done|].
    unfold close_timeout. simpl. destruct (ws st) as [s|]; [|done].
    case_bool_decide as Ho; [|done]. unfold socket_close. by rewrite Ho.
Qed.

Lemma started_every_3s_run (evs : list event) (st : state) :
  started_every_3s st → started_every_3s (run evs st).
Proof.
  revert st. induction evs as [|ev evs IH]; intros st H; [done|].
  simpl. by apply IH, started_every_3s_step.
Qed.

Lemma chunk_sent_when_ready (e : blob) (st : state) :
  wire (step (ArrayBufferReady (length (awaiting st))) (step (DataAvailable e) st)) =
  wire st ++ audio_frames e st.
Proof.
  simpl. unfold ondataavailable, ws_open, audio_frames.
  destruct (ws st) as [s|] eqn:Ew.
  - destruct (bool_decide (0 < size e) && bool_decide (readyState s st = Some OPEN)) eqn:Hg.
    + simpl. rewrite lookup_app_r, Nat.sub_diag by done. simpl.
      rewrite wire_ondataavailable_resume. unfold resume_frames; simpl. rewrite Ew.
      apply andb_true_iff in Hg as [_ Ho]. unfold readyState in *; simpl. by rewrite Ho.
    + rewrite lookup_ge_None_2 by done. by rewrite app_nil_r.
  - rewrite andb_false_r. rewrite lookup_ge_None_2 by done. by rewrite app_nil_r.
Qed.

(** C8. When the microphone is granted the client creates the recorder
    and starts it with a timeslice of 3000 milliseconds; every recorder
    the page ever holds was started that way.  Each chunk the recorder
    then delivers is sent as one frame as soon as its bytes are
    available (when it is not empty and the socket is open), so frames
    go out at the recorder's cadence. *)
Theorem recorder_started_with_3000ms_timeslice
    (isTypeSupported : jsstring → bool) (st : state) (p : page) (evs : list event) (e : blob) :
  mediaRecorder (onopen_granted isTypeSupported st) =
    Some {| mimeType := opt_mimeType (options isTypeSupported);
            audioBitsPerSecond := 128000; rec_state := recording;
            timeslice := Some 3000%N |} ∧
  isRecording (onopen_granted isTypeSupported st) = true ∧
  match mediaRecorder (run evs (initial p)) with
  | Some r => timeslice r = Some 3000%N
  | None => True
  end ∧
  wire (step (ArrayBufferReady (length (awaiting st))) (step (DataAvailable e) st)) =
    wire st ++ audio_frames e st.
Proof.
  split; [done|]. split; [done|]. split; [|apply chunk_sent_when_ready].
  by apply (started_every_3s_run evs (initial p)).
Qed.

(** ** The recording format *)

Lemma select_type_first (sup : jsstring → bool) (earlier later : list jsstring) (type : jsstring) :
  Forall (fun t => sup t = false) earlier → sup type = true →
  select_type sup (earlier ++ type :: later) = type.
Proof.
  induction 1 as [|t earlier Ht _ IH]; intros Hs; simpl.
  - by rewrite Hs.
  - rewrite Ht. by apply IH.
Qed.

Lemma select_type_none (sup : jsstring → bool) (types : list jsstring) :
  Forall (fun t => sup t = false) types → select_type sup types = [].
Proof. induction 1 as [|t types Ht _ IH]; simpl; [done|]. by rewrite Ht. Qed.

Lemma supportedTypes_truthy (type : jsstring) :
  type ∈ supportedTypes → truthy type = true.
Proof.
  unfold supportedTypes. rewrite !elem_of_cons, elem_of_nil.
  intros [->|[->|[->|[->|[]]]]]; reflexivity.
Qed.

(** C9. The recording MIME type is the first entry of the preference
    list that [MediaRecorder.isTypeSupported] accepts; when it accepts
    none, no [mimeType] is passed and the recorder uses the browser's
    default. *)
Theorem first_supported_type_selected (isTypeSupported : jsstring → bool) :
  supportedTypes =
    [ lit "audio/webm;codecs=opus"; lit "audio/webm";
      lit "audio/mp4;codecs=mp4a.40.2"; lit "audio/ogg;codecs=opus" ] ∧
  (∀ (earlier later : list jsstring) (type : jsstring),
     supportedTypes = earlier ++ type :: later →
     Forall (fun t => isTypeSupported t = false) earlier →
     isTypeSupported type = true →
     selectedType isTypeSupported = type ∧
     mimeType (new_MediaRecorder (options isTypeSupported)) = Some type) ∧
  (Forall (fun t => isTypeSupported t = false) supportedTypes →
     selectedType isTypeSupported = lit "" ∧
     mimeType (new_MediaRecorder (options isTypeSupported)) = None).
Proof.
  split; [done|]. split.
  - intros earlier later type Hl He Ht.
    assert (Hsel : selectedType isTypeSupported = type).
    { unfold selectedType. rewrite Hl. by apply select_type_first. }
    split; [done|]. unfold options; simpl. rewrite Hsel.
    rewrite supportedTypes_truthy; [done|].
    rewrite Hl. apply elem_of_app. right. apply elem_of_cons. by left.
  - intros Hnone.
    assert (Hsel : selectedType isTypeSupported = []) by by apply select_type_none.
    split; [done|]. unfold options; simpl. by rewrite Hsel.
Qed.

(** ** Captions *)

Lemma payload_final (rest : jsstring) : payload (FINAL_PREFIX ++ rest) = rest.
Proof.
  unfold payload.
  replace (startsWith (FINAL_PREFIX ++ rest) FINAL_PREFIX) with true; [done|].
  symmetry. apply startsWith_prefix. by exists rest.
Qed.

Lemma payload_incremental (m : jsstring) :
  startsWith m FINAL_PREFIX = false → payload m = m.
Proof. unfold payload. by intros ->. Qed.

(** C3 (as amended). A received message is the final caption exactly
    when it starts with the 7 code units of ["Final: "], which are
    removed before display; any other message is an incremental caption.
    Both kinds reach the page through the same steps: the payload is
    trimmed and, unless empty, appended with one space.  A final caption
    is therefore displayed exactly as the incremental caption with the
    same text; it differs from it in the message stream, by its prefix. *)
Theorem final_caption_has_prefix_and_displays_alike (m : jsstring) (st : state) :
  length FINAL_PREFIX = 7 ∧
  (startsWith m FINAL_PREFIX = true ↔ ∃ rest, m = lit "Final: " ++ rest) ∧
  payload (lit "Final: " ++ m) = m ∧
  (startsWith m FINAL_PREFIX = false → payload m = m) ∧
  onmessage m st = display (payload m) st ∧
  (startsWith m FINAL_PREFIX = false →
   onmessage (lit "Final: " ++ m) st = onmessage m st).
Proof.
  split; [done|]. split; [apply startsWith_prefix|].
  split; [apply payload_final|]. split; [apply payload_incremental|].
  split; [apply onmessage_display|].
  intros Hinc. rewrite !onmessage_display.
  change (lit "Final: ") with FINAL_PREFIX.
  by rewrite payload_final, payload_incremental.
Qed.

(** C3 as stated fails: the final caption is not rendered differently.
    The final message ["Final: hello"] and the incremental message
    ["hello"] are classified differently and leave the page in the same
    state. *)
Lemma final_caption_rendered_like_incremental :
  startsWith (lit "Final: hello") FINAL_PREFIX = true ∧
  startsWith (lit "hello") FINAL_PREFIX = false ∧
  onmessage (lit "Final: hello") (initial blank_page) =
  onmessage (lit "hello") (initial blank_page) ∧
  captions (onmessage (lit "Final: hello") (initial blank_page)) = lit "hello ".
Proof. repeat split; reflexivity. Qed.

Lemma shown_payload_incrementals (incs : list jsstring) :
  Forall (fun m => startsWith m FINAL_PREFIX = false) incs →
  (shown ∘ payload) <$> incs = shown <$> incs.
Proof.
  induction 1 as [|m incs Hm _ IH]; [done|].
  rewrite !fmap_cons, IH. unfold compose. by rewrite (payload_incremental m Hm).
Qed.

Lemma display_blank (pl : jsstring) (st : state) :
  forallb is_trimmed_char pl = true → display pl st = st.
Proof.
  intros Hb. apply trim_nil, shown_nil in Hb. unfold display. by rewrite Hb.
Qed.

(** C4. Incremental captions followed by the final one are handled in
    arrival order, and the caption area then holds what it held before
    followed by each non-empty trimmed payload with one space after it,
    in order, the final one without its prefix.  A message whose payload
    is empty or white space only changes nothing. *)
Theorem captions_after_incrementals_and_final
    (incs : list jsstring) (fin : jsstring) (st : state) :
  Forall (fun m => startsWith m FINAL_PREFIX = false) incs →
  startsWith fin FINAL_PREFIX = true →
  captions (receive (incs ++ [fin]) st) =
    captions st ++ mjoin (shown <$> incs) ++ shown (substring 7 fin) ∧
  (∀ (m : jsstring) (st' : state),
     forallb is_trimmed_char (payload m) = true → onmessage m st' = st').
Proof.
  intros Hincs Hfin. split.
  - rewrite captions_receive, fmap_app, shown_payload_incrementals by done.
    rewrite (join_app (A:=code_unit)). simpl. unfold payload. rewrite Hfin. by rewrite app_nil_r.
  - intros m st' Hb. rewrite onmessage_display. by apply display_blank.
Qed.

Lemma captions_after_session_witness :
  captions (receive (caption_stream ++ [lit "Final: hello world"]) (initial blank_page)) =
    captions (initial blank_page) ++ mjoin (shown <$> caption_stream)
      ++ shown (substring 7 (lit "Final: hello world")) ∧
  (∀ (m : jsstring) (st' : state),
     forallb is_trimmed_char (payload m) = true → onmessage m st' = st').
Proof.
  apply (captions_after_incrementals_and_final caption_stream
           (lit "Final: hello world") (initial blank_page)).
  - repeat constructor.
  - reflexivity.
Defined.

Example caption_stream_displayed :
  captions (receive (caption_stream ++ [lit "Final: hello world"]) (initial blank_page)) =
  lit "hello hello world hello world ".
Proof. reflexivity. Qed.

(** C10. The message handler only ever appends to the caption area:
    after any message the area holds its previous text followed by what
    the message shows, and the rest of the page is as before.  Nothing
    is appended exactly when the payload is empty or white space only;
    otherwise at least a character and the space are. *)
Theorem captions_append_only (m : jsstring) (st : state) :
  onmessage m st = set_captions (captions st ++ shown (payload m)) st ∧
  captions st `prefix_of` captions (onmessage m st) ∧
  (shown (payload m) = [] ↔ forallb is_trimmed_char (payload m) = true) ∧
  ((forallb is_trimmed_char (payload m) = true ∧ onmessage m st = st) ∨
   (∃ c text, captions (onmessage m st) = captions st ++ c :: text)).
Proof.
  rewrite onmessage_display.
  assert (Hset : display (payload m) st = set_captions (captions st ++ shown (payload m)) st).
  { unfold display. destruct (shown (payload m)); [|done].
    rewrite app_nil_r. by destruct st. }
  split; [done|].
  split; [rewrite captions_display; by apply prefix_app_r|].
  split; [by rewrite shown_nil, trim_nil|].
  destruct (shown (payload m)) as [|c text] eqn:Es.
  - left. apply shown_nil, trim_nil in Es. split; [done|]. by apply display_blank.
  - right. exists c, text. by rewrite captions_display, Es.
Qed.

(** ** The session controller *)

Section ControllerProperties.
Import Server.
Context {pcm : Type}.
Variable decode : list byte → option pcm.
Variable transcribe : pcm → option jsstring.

Lemma serve_app (is1 is2 : list input) (s : session) :
  serve decode transcribe (is1 ++ is2) s =
  serve decode transcribe is2 (serve decode transcribe is1 s).
Proof. apply foldl_app. Qed.

Lemma handle_fragment (b : list byte) (s : session) :
  state s = Connected ∨ state s = Recording →
  handle decode transcribe (Fragment b) s =
  {| state := Recording; buffer := buffer s ++ b; actions := actions s |}.
Proof. unfold handle. by intros [E|E]; rewrite E. Qed.

Lemma handle_trigger (s : session) :
  state s = Connected ∨ state s = Recording →
  forallb is_incremental (actions s) = true →
  buffer (handle decode transcribe Trigger s) = buffer s ∧
  state (handle decode transcribe Trigger s) = state s ∧
  forallb is_incremental (actions (handle decode transcribe Trigger s)) = true.
Proof.
  unfold handle. intros [E|E] Hact; rewrite E; [by rewrite E|].
  destruct (pass decode transcribe (buffer s)); simpl; [|by rewrite E].
  by rewrite forallb_app, Hact.
Qed.

(** While fragments and triggers arrive, the session is waiting for
    its first fragment or recording; the buffer holds every fragment
    received, in order, and only incremental units have been sent. *)
Lemma recording_invariant (body : list input) (s : session) :
  forallb is_recording_input body = true →
  state s = Connected ∨ state s = Recording →
  forallb is_incremental (actions s) = true →
  buffer (serve decode transcribe body s) = buffer s ++ mjoin (fragment_bytes <$> body) ∧
  forallb is_incremental (actions (serve decode transcribe body s)) = true ∧
  (state (serve decode transcribe body s) = Connected ∨
   state (serve decode transcribe body s) = Recording) ∧
  (state s = Recording ∨ existsb is_fragment body = true →
   state (serve decode transcribe body s) = Recording).
Proof.
  revert s. induction body as [|i body IH]; intros s Hbody Hst Hact.
  - simpl. rewrite app_nil_r. split; [done|]. split; [done|]. split; [done|].
    by intros [?|?].
  - simpl in Hbody. apply andb_true_iff in Hbody as [Hi Hbody].
    change (serve decode transcribe (i :: body) s)
      with (serve decode transcribe body (handle decode transcribe i s)).
    destruct i as [|b| | | |]; try discriminate.
    + rewrite (handle_fragment b s Hst).
      destruct (IH {| state := Recording; buffer := buffer s ++ b; actions := actions s |}
                  Hbody (or_intror eq_refl) Hact) as (Hb & Ha & Hcr & Hr).
      simpl in *. rewrite Hb, <- app_assoc. split; [done|]. split; [done|].
      split; [done|]. intros _. apply Hr. by left.
    + destruct (handle_trigger s Hst Hact) as (Hb & Hs & Ha).
      destruct (IH (handle decode transcribe Trigger s) Hbody) as (Hb' & Ha' & Hcr & Hr).
      { by rewrite Hs. }
      { done. }
      simpl. rewrite Hb', Hb. split; [done|]. split; [done|]. split; [done|].
      rewrite Hs in Hr. exact Hr.
Qed.

(** C5 (as amended). A session of any sequence of fragments, none
    included (with any number of triggers among them), followed by the
    Control Signal sends exactly one final Transcript Unit, as its last
    message before the transport is closed, when the finalizing pass
    over the whole buffer succeeds.  When that pass fails the session
    ends in [Errored] and the transport is closed without a final unit.
    Either way everything sent before is incremental. *)
Theorem one_final_unit_when_finalizing_succeeds (body : list input) :
  forallb is_recording_input body = true →
  ∃ incs : list action,
    forallb is_incremental incs = true ∧
    match pass decode transcribe (mjoin (fragment_bytes <$> body)) with
    | Some text =>
        actions (serve decode transcribe (TransportOpen :: body ++ [ControlSignal]) start) =
          incs ++ [Emit final text; CloseTransport] ∧
        state (serve decode transcribe (TransportOpen :: body ++ [ControlSignal]) start) = Closed
    | None =>
        actions (serve decode transcribe (TransportOpen :: body ++ [ControlSignal]) start) =
          incs ++ [CloseTransport] ∧
        state (serve decode transcribe (TransportOpen :: body ++ [ControlSignal]) start) = Errored
    end.
Proof.
  intros Hbody.
  change (serve decode transcribe (TransportOpen :: body ++ [ControlSignal]) start)
    with (serve decode transcribe (body ++ [ControlSignal])
            {| state := Connected; buffer := []; actions := [] |}).
  rewrite serve_app.
  destruct (recording_invariant body {| state := Connected; buffer := []; actions := [] |}
              Hbody (or_introl eq_refl) eq_refl) as (Hb & Ha & Hcr & _).
  simpl in Hb.
  set (s := serve decode transcribe body {| state := Connected; buffer := []; actions := [] |}) in *.
  exists (actions s). split; [done|].
  simpl. unfold handle.
  destruct Hcr as [Hc|Hr]; [rewrite Hc|rewrite Hr]; rewrite Hb;
    by destruct (pass decode transcribe (mjoin (fragment_bytes <$> body))).
Qed.

End ControllerProperties.

Lemma one_final_unit_witness :
  ∃ incs : list Server.action,
    forallb Server.is_incremental incs = true ∧
    match Server.pass Server.ebml_decode Server.word_engine
            (mjoin (Server.fragment_bytes <$> Server.webm_session)) with
    | Some text =>
        Server.actions (Server.serve Server.ebml_decode Server.word_engine
          (Server.TransportOpen :: Server.webm_session ++ [Server.ControlSignal]) Server.start) =
          incs ++ [Server.Emit Server.final text; Server.CloseTransport] ∧
        Server.state (Server.serve Server.ebml_decode Server.word_engine
          (Server.TransportOpen :: Server.webm_session ++ [Server.ControlSignal]) Server.start) =
          Server.Closed
    | None =>
        Server.actions (Server.serve Server.ebml_decode Server.word_engine
          (Server.TransportOpen :: Server.webm_session ++ [Server.ControlSignal]) Server.start) =
          incs ++ [Server.CloseTransport] ∧
        Server.state (Server.serve Server.ebml_decode Server.word_engine
          (Server.TransportOpen :: Server.webm_session ++ [Server.ControlSignal]) Server.start) =
          Server.Errored
    end.
Proof.
  apply (one_final_unit_when_finalizing_succeeds
           Server.ebml_decode Server.word_engine Server.webm_session).
  reflexivity.
Defined.

Example no_fragment_actions :
  Server.actions (Server.serve Server.ebml_decode Server.word_engine
    [Server.TransportOpen; Server.ControlSignal] Server.start) =
  [ Server.CloseTransport ].
Proof. reflexivity. Qed.

Example webm_session_actions :
  Server.actions (Server.serve Server.ebml_decode Server.word_engine
    (Server.TransportOpen :: Server.webm_session ++ [Server.ControlSignal]) Server.start) =
  [ Server.Emit Server.incremental (lit "la ");
    Server.Emit Server.final (lit "la la la ");
    Server.CloseTransport ].
Proof. reflexivity. Qed.

(** C5 as stated fails: fragments that do not decode, followed by the
    Control Signal, end the session without any final Transcript Unit;
    the transport is closed and the session is [Errored]. *)
Lemma no_final_unit_when_finalizing_fails :
  Server.actions (Server.serve Server.ebml_decode Server.word_engine
    (Server.TransportOpen :: Server.garbage_session ++ [Server.ControlSignal]) Server.start) =
    [Server.CloseTransport] ∧
  filter (fun a => Server.is_final a = true)
    (Server.actions (Server.serve Server.ebml_decode Server.word_engine
       (Server.TransportOpen :: Server.garbage_session ++ [Server.ControlSignal]) Server.start)) = [] ∧
  Server.state (Server.serve Server.ebml_decode Server.word_engine
    (Server.TransportOpen :: Server.garbage_session ++ [Server.ControlSignal]) Server.start) =
    Server.Errored.
Proof. repeat split; reflexivity. Qed.

(** ** More on [cleanup] *)

Lemma page_view_send_end (st : state) : page_view (send_end st) = page_view st.
Proof.
  unfold send_end. destruct (ws st) as [s|]; [|done].
  case_bool_decide as Ho; [|done]. unfold socket_send. by rewrite Ho.
Qed.

Lemma timers_send_end (st : state) :
  timers (send_end st) = timers st + length (end_frames st).
Proof.
  unfold send_end, end_frames. destruct (ws st) as [s|]; [|simpl; lia].
  case_bool_decide as Ho; [|simpl; lia].
  unfold socket_send. rewrite Ho. simpl. lia.
Qed.

Lemma stop_stream_fields (st : state) :
  stream (stop_stream st) = None ∧
  (mediaRecorder (stop_stream st), isRecording (stop_stream st), captions (stop_stream st),
   status_text (stop_stream st), status_class (stop_stream st),
   body_recording (stop_stream st), gum_pending (stop_stream st), timers (stop_stream st)) =
  (mediaRecorder st, isRecording st, captions st, status_text st, status_class st,
   body_recording st, gum_pending st, timers st).
Proof. unfold stop_stream. by destruct (stream st) eqn:E. Qed.

Lemma stop_recorder_fields (st : state) :
  (mediaRecorder (stop_recorder st) = None ∨ isRecording (stop_recorder st) = false) ∧
  (stream (stop_recorder st), captions (stop_recorder st),
   status_text (stop_recorder st), status_class (stop_recorder st),
   body_recording (stop_recorder st), gum_pending (stop_recorder st),
   timers (stop_recorder st)) =
  (stream st, captions st, status_text st, status_class st,
   body_recording st, gum_pending st, timers st).
Proof.
  unfold stop_recorder. destruct (mediaRecorder st) as [r|] eqn:Er; [|by split; [left|]].
  destruct (isRecording st) eqn:Ei; [|by split; [right|]].
  split; [by right|]. unfold recorder_stop. by destruct (rec_state r).
Qed.

(** What [cleanup] leaves behind, field by field. *)
Lemma cleanup_fields (st : state) :
  controls (cleanup st) = (None, false, true) ∧
  (mediaRecorder (cleanup st) = None ∨ isRecording (cleanup st) = false) ∧
  stream (cleanup st) = None ∧
  body_recording (cleanup st) = false ∧
  status_text (cleanup st) = lit "Stopped" ∧
  status_class (cleanup st) = lit "status-area" ∧
  captions (cleanup st) = captions st ∧
  gum_pending (cleanup st) = gum_pending st ∧
  timers (cleanup st) = timers st + length (end_frames st).
Proof.
  split; [done|]. rewrite cleanup_blocks.
  set (a := reset_ui st). set (b := stop_recorder a). set (c := stop_stream b).
  pose proof (page_view_send_end c) as Hv. unfold page_view in Hv.
  injection Hv as Hmr Hir Hstr Hcap Hst Hsc Hbr Hgp.
  pose proof (timers_send_end c) as Ht.
  destruct (stop_stream_fields b) as [Hnone Hc]. fold c in Hnone, Hc.
  injection Hc as Hmr' Hir' Hcap' Hst' Hsc' Hbr' Hgp' Ht'.
  destruct (stop_recorder_fields a) as [Hrec Hb]. fold b in Hrec, Hb.
  injection Hb as Hstr'' Hcap'' Hst'' Hsc'' Hbr'' Hgp'' Ht''.
  assert (He : end_frames c = end_frames st).
  { apply end_frames_core. unfold c, b, a.
    by rewrite core_stop_stream, core_stop_recorder, core_reset_ui. }
  change (mediaRecorder (set_buttons false true (set_ws None ?x))) with (mediaRecorder x).
  change (isRecording (set_buttons false true (set_ws None ?x))) with (isRecording x).
  change (stream (set_buttons false true (set_ws None ?x))) with (stream x).
  change (body_recording (set_buttons false true (set_ws None ?x))) with (body_recording x).
  change (status_text (set_buttons false true (set_ws None ?x))) with (status_text x).
  change (status_class (set_buttons false true (set_ws None ?x))) with (status_class x).
  change (captions (set_buttons false true (set_ws None ?x))) with (captions x).
  change (gum_pending (set_buttons false true (set_ws None ?x))) with (gum_pending x).
  change (timers (set_buttons false true (set_ws None ?x))) with (timers x).
  rewrite Hmr, Hir, Hstr, Hcap, Hst, Hsc, Hbr, Hgp, Ht, He.
  rewrite Hmr', Hir', Hcap', Hst', Hsc', Hbr', Hgp', Ht'.
  rewrite Hcap'', Hst'', Hsc'', Hbr'', Hgp'', Ht''.
  by repeat split.
Qed.

Lemma cleanup_fixed (st : state) :
  mediaRecorder st = None ∨ isRecording st = false →
  stream st = None → controls st = (None, false, true) →
  body_recording st = false → status_text st = lit "Stopped" →
  status_class st = lit "status-area" →
  cleanup st = st.
Proof.
  destruct st as [mr w ir str sd pd cap stt stc br socks wr aw gp tm]; simpl.
  intros Hrec -> [= -> -> ->] -> -> ->. unfold cleanup; simpl.
  destruct mr as [r|]; [|done]. destruct Hrec as [[=]| ->]. done.
Qed.

(** X1. Running [cleanup] a second time changes nothing: no second
    [END], no further timer, the same page. *)
Theorem cleanup_idempotent (st : state) : cleanup (cleanup st) = cleanup st.
Proof.
  destruct (cleanup_fields st) as (Hc & Hrec & Hstr & Hbr & Hst & Hsc & _).
  by apply cleanup_fixed.
Qed.

(** X2. Every handler that ends in [cleanup()] leaves the status line
    reading "Stopped" with the plain class: the texts "Disconnected",
    "Microphone Access Error" and "Stopping..." that these handlers set
    first are overwritten before the handler returns. *)
Theorem status_after_cleanup_is_stopped (st : state) :
  Forall (fun handler : state → state =>
            status_text (handler st) = lit "Stopped" ∧
            status_class (handler st) = lit "status-area" ∧
            body_recording (handler st) = false)
         cleanup_callers.
Proof.
  unfold cleanup_callers, onclose, onopen_denied, stopBtn_onclick.
  repeat constructor;
    match goal with |- context [cleanup ?x] =>
      destruct (cleanup_fields x) as (_ & _ & _ & Hbr & Hst & Hsc & _) end; done.
Qed.

(** ** The buttons and the socket reference *)

Lemma controls_cleanup (st : state) : controls (cleanup st) = (None, false, true).
Proof. reflexivity. Qed.

Lemma controls_onmessage (m : jsstring) (st : state) :
  controls (onmessage m st) = controls st.
Proof. rewrite onmessage_display. unfold display. by destruct (shown (payload m)). Qed.

Lemma controls_ondataavailable_resume (b : list byte) (st : state) :
  controls (ondataavailable_resume b st) = controls st.
Proof.
  unfold ondataavailable_resume, try_catch, socket_send.
  destruct (ws st) as [s|]; [|done]. by destruct (readyState s st) as [[]|].
Qed.

Lemma controls_close_timeout (st : state) : controls (close_timeout st) = controls st.
Proof.
  unfold close_timeout. destruct (ws st) as [s|] eqn:Ew; [|done].
  case_bool_decide as Ho; [|done]. unfold socket_close. rewrite Ho.
  unfold controls; simpl. by rewrite Ew.
Qed.

Lemma controls_startBtn_click (st : state) :
  controls (startBtn_click st) = controls st ∨
  (startBtn_disabled st = false ∧
   controls (startBtn_click st) = (Some (length (sockets st)), true, false)).
Proof. unfold startBtn_click. destruct (startBtn_disabled st); [by left|by right]. Qed.

Lemma controls_stopBtn_click (st : state) :
  controls (stopBtn_click st) = controls st ∨
  controls (stopBtn_click st) = (None, false, true).
Proof. unfold stopBtn_click. destruct (stopBtn_disabled st); [by left|by right]. Qed.

Lemma step_controls (ev : event) (st : state) :
  controls (step ev st) = controls st ∨
  controls (step ev st) = (None, false, true) ∨
  (startBtn_disabled st = false ∧
   controls (step ev st) = (Some (length (sockets st)), true, false)).
Proof.
  destruct ev as [| | | | |s|s data|s|s|s|granted sup| |e|k| | | ]; simpl.
  - destruct (controls_startBtn_click st) as [?|?]; auto.
  - destruct (controls_stopBtn_click st) as [?|?]; auto.
  - unfold onkeydown_space. destruct (isRecording st); simpl.
    + destruct (controls_stopBtn_click st) as [?|?]; auto.
    + destruct (controls_startBtn_click st) as [?|?]; auto.
  - unfold onkeydown_escape. destruct (isRecording st); [|by left].
    destruct (controls_stopBtn_click st) as [?|?]; auto.
  - unfold onbeforeunload. destruct (isRecording st); [right|]; by left.
  - destruct (readyState s st) as [[]|]; by left.
  - unfold on_socket. destruct (readyState s st); [|by left].
    left. apply controls_onmessage.
  - unfold on_socket. destruct (readyState s st); by left.
  - destruct (readyState s st) as [[]|]; by left.
  - destruct (readyState s st) as [[]|]; try (by left); right; by left.
  - destruct (gum_pending st) as [|n]; [by left|].
    destruct granted; [by left|right; by left].
  - by left.
  - unfold ondataavailable. destruct (_ && _); by left.
  - destruct (awaiting st !! k) as [b|]; [|by left].
    left. by rewrite controls_ondataavailable_resume.
  - unfold recorder_onstop. destruct (stream st); by left.
  - by left.
  - destruct (timers st) as [|n]; [by left|]. left.
    by rewrite controls_close_timeout.
Qed.

(** While the page holds a socket, Start is disabled and Stop is
    enabled. *)
Lemma buttons_follow_socket (p : page) (evs : list event) :
  match ws (run evs (initial p)) with
  | Some _ =>
      startBtn_disabled (run evs (initial p)) = true ∧
      stopBtn_disabled (run evs (initial p)) = false
  | None => True
  end.
Proof.
  induction evs as [|ev evs IH] using rev_ind; [done|].
  rewrite run_snoc.
  set (st := run evs (initial p)) in *.
  destruct (step_controls ev st) as [Hc|[Hc|[_ Hc]]];
    unfold controls in Hc; injection Hc as Hw Hs Hp; rewrite Hw, ?Hs, ?Hp; done.
Qed.

(** X3. While the page holds a socket (a session is starting or
    running) the Start button is disabled and the Stop button enabled, so
    a click on Start, or Space pressed before recording has begun, cannot
    replace the socket: the socket reference changes only from null to a
    new socket and from a socket to null. *)
Theorem one_socket_at_a_time (p : page) (evs : list event) (ev : event) :
  match ws (run evs (initial p)) with
  | Some s =>
      startBtn_disabled (run evs (initial p)) = true ∧
      stopBtn_disabled (run evs (initial p)) = false ∧
      step ClickStart (run evs (initial p)) = run evs (initial p) ∧
      (ws (step ev (run evs (initial p))) = Some s ∨
       ws (step ev (run evs (initial p))) = None)
  | None =>
      ws (step ev (run evs (initial p))) = None ∨
      ws (step ev (run evs (initial p))) = Some (length (sockets (run evs (initial p))))
  end.
Proof.
  pose proof (buttons_follow_socket p evs) as Hb.
  set (st := run evs (initial p)) in *.
  pose proof (step_controls ev st) as Hc. unfold controls in Hc.
  destruct (ws st) as [s|] eqn:Ew.
  - destruct Hb as [Hstart Hstop]. split; [done|]. split; [done|].
    split; [simpl; unfold startBtn_click; by rewrite Hstart|].
    destruct Hc as [[= -> _ _]|[[= -> _ _]|[Hen _]]]; [by left|by right|congruence].
  - destruct Hc as [[= -> _ _]|[[= -> _ _]|[_ [= -> _ _]]]]; [by left|by left|by right].
Qed.

(** ** The keyboard *)

Lemma onkeydown_cases (e : keydown_event) (st : state) :
  snd (onkeydown e st) = st ∨
  snd (onkeydown e st) = onkeydown_space st ∨
  snd (onkeydown e st) = onkeydown_escape st.
Proof.
  unfold onkeydown, onkeydown_space, onkeydown_escape; simpl.
  destruct (toggles e) eqn:Ht.
  - assert (Hesc : strict_eq (code e) (lit "Escape") = false).
    { unfold toggles, strict_eq in *.
      destruct (decide (code e = lit "Space")) as [->|Hne].
      - by apply bool_decide_eq_false_2.
      - by rewrite (bool_decide_eq_false_2 _ Hne) in Ht. }
    rewrite Hesc. simpl. right; left. done.
  - destruct (strict_eq (code e) (lit "Escape")); simpl; [right; right|left]; done.
Qed.

(** X4. Between Start and the moment recording begins (the socket is
    held, [isRecording] is still false) no key does anything: Space
    would click Start, which is disabled, and Escape acts only while
    recording.  Only a click on Stop ends a session at that stage. *)
Theorem keyboard_inert_while_starting (p : page) (evs : list event) (e : keydown_event) :
  ws (run evs (initial p)) ≠ None →
  isRecording (run evs (initial p)) = false →
  snd (onkeydown e (run evs (initial p))) = run evs (initial p) ∧
  step KeySpace (run evs (initial p)) = run evs (initial p) ∧
  step KeyEscape (run evs (initial p)) = run evs (initial p).
Proof.
  intros Hws Hrec. pose proof (buttons_follow_socket p evs) as Hb.
  set (st := run evs (initial p)) in *.
  destruct (ws st) as [s|]; [|done]. destruct Hb as [Hstart _].
  assert (Hspace : onkeydown_space st = st).
  { unfold onkeydown_space, startBtn_click. by rewrite Hrec, Hstart. }
  assert (Hescape : onkeydown_escape st = st).
  { unfold onkeydown_escape. by rewrite Hrec. }
  split; [|done].
  destruct (onkeydown_cases e st) as [H|[H|H]]; by rewrite H.
Qed.

Lemma keyboard_inert_witness :
  snd (onkeydown space_key (run awaiting_microphone (initial blank_page))) =
    run awaiting_microphone (initial blank_page) ∧
  step KeySpace (run awaiting_microphone (initial blank_page)) =
    run awaiting_microphone (initial blank_page) ∧
  step KeyEscape (run awaiting_microphone (initial blank_page)) =
    run awaiting_microphone (initial blank_page).
Proof.
  apply (keyboard_inert_while_starting blank_page awaiting_microphone space_key);
    [discriminate|reflexivity].
Defined.

(** X5. A key press changes the page only if it is Escape or a Space
    that is not typed into a text field (or comes with Ctrl); the default
    action is prevented exactly for such a Space.  Whatever the key, the
    listener does what the Space toggle or the Escape shortcut does, or
    nothing. *)
Theorem keydown_only_space_and_escape (e : keydown_event) (st : state) :
  (code e ≠ lit "Space" → code e ≠ lit "Escape" → onkeydown e st = (false, st)) ∧
  (code e = lit "Space" → ctrlKey e = false →
   activeElement_tagName e = lit "INPUT" ∨ activeElement_tagName e = lit "TEXTAREA" →
   onkeydown e st = (false, st)) ∧
  (code e = lit "Space" → ctrlKey e = true → onkeydown e st = (true, onkeydown_space st)) ∧
  (code e = lit "Escape" → onkeydown e st = (false, onkeydown_escape st)).
Proof.
  unfold onkeydown, onkeydown_space, onkeydown_escape, toggles, strict_eq.
  split; [|split; [|split]].
  - intros Hs He. by rewrite !(bool_decide_eq_false_2 _ Hs), (bool_decide_eq_false_2 _ He).
  - intros -> -> [-> | ->]; reflexivity.
  - intros -> ->. reflexivity.
  - intros ->. reflexivity.
Qed.

(** ** Sockets after the script has let go of them *)

Lemma sockets_ondataavailable_resume (b : list byte) (st : state) :
  sockets (ondataavailable_resume b st) = sockets st.
Proof.
  unfold ondataavailable_resume, try_catch, socket_send.
  destruct (ws st) as [s|]; [|done]. by destruct (readyState s st) as [[]|].
Qed.

Lemma sockets_startBtn_click (st : state) :
  sockets (startBtn_click st) = sockets st ∨
  sockets (startBtn_click st) = sockets st ++ [CONNECTING].
Proof. unfold startBtn_click. destruct (startBtn_disabled st); [by left|by right]. Qed.

Lemma sockets_stopBtn_click (st : state) : sockets (stopBtn_click st) = sockets st.
Proof.
  unfold stopBtn_click. destruct (stopBtn_disabled st); [done|].
  unfold stopBtn_onclick. by rewrite sockets_cleanup.
Qed.

(** How one event changes the connection states: not at all, by a new
    connecting socket at the end, or at one socket that the event names
    or that the global refers to when a timer fires. *)
Lemma step_sockets (ev : event) (st : state) :
  sockets (step ev st) = sockets st ∨
  sockets (step ev st) = sockets st ++ [CONNECTING] ∨
  ∃ s r, sockets (step ev st) = <[s := r]> (sockets st) ∧
         (ev = SocketOpen s ∧ readyState s st = Some CONNECTING ∨
          ev = SocketClosing s ∨ ev = SocketClose s ∨
          ev = Timeout ∧ ws st = Some s ∧ r = CLOSING).
Proof.
  destruct ev as [| | | | |s|s data|s|s|s|granted sup| |e|k| | | ]; simpl.
  - destruct (sockets_startBtn_click st) as [?|?]; auto.
  - left. apply sockets_stopBtn_click.
  - unfold onkeydown_space. destruct (isRecording st); simpl.
    + left. apply sockets_stopBtn_click.
    + destruct (sockets_startBtn_click st) as [?|?]; auto.
  - unfold onkeydown_escape. destruct (isRecording st); [|by left].
    left. apply sockets_stopBtn_click.
  - unfold onbeforeunload. destruct (isRecording st); [|by left].
    left. apply sockets_cleanup.
  - destruct (readyState s st) as [[]|] eqn:Er; try by left.
    right; right. exists s, OPEN. split; [done|]. by left.
  - unfold on_socket. destruct (readyState s st); [|by left].
    left. rewrite onmessage_display. unfold display. by destruct (shown _).
  - unfold on_socket. destruct (readyState s st); by left.
  - destruct (readyState s st) as [[]|]; try by left.
    right; right. exists s, CLOSING. split; [done|]. right; by left.
  - destruct (readyState s st) as [[]|]; try by left.
    all: right; right; exists s, CLOSED; unfold onclose; rewrite sockets_cleanup;
      split; [done|]; right; right; by left.
  - destruct (gum_pending st) as [|n]; [by left|]. destruct granted; [by left|].
    left. unfold onopen_denied. by rewrite sockets_cleanup.
  - by left.
  - unfold ondataavailable. destruct (_ && _); by left.
  - destruct (awaiting st !! k) as [b|]; [|by left].
    left. by rewrite sockets_ondataavailable_resume.
  - unfold recorder_onstop. destruct (stream st); by left.
  - by left.
  - destruct (timers st) as [|n]; [by left|].
    unfold close_timeout; simpl. destruct (ws st) as [s|] eqn:Ew; [|by left].
    case_bool_decide as Ho; [|by left]. unfold socket_close. rewrite Ho.
    right; right. exists s, CLOSING. split; [done|]. right; right; right. done.
Qed.

Lemma released_stays (s : nat) (r : ready_state) (ev : event) (st : state) :
  peer_closes s ev = false →
  r ≠ CONNECTING →
  ws st ≠ Some s → readyState s st = Some r →
  ws (step ev st) ≠ Some s ∧ readyState s (step ev st) = Some r.
Proof.
  intros Hpeer Hr Hne Hs.
  assert (Hlt : s < length (sockets st)) by by eapply lookup_lt_Some.
  destruct (released_effect s ev st _ (step_effect ev st) Hne Hlt) as (Hne' & _ & _).
  split; [done|]. unfold readyState in *.
  destruct (step_sockets ev st) as [->|[->|(s' & r' & -> & Hev)]]; [done| |].
  - by rewrite lookup_app_l.
  - destruct (decide (s' = s)) as [->|Hss]; [|by rewrite list_lookup_insert_ne].
    destruct Hev as [[_ Hc]|[->|[->|(_ & Hw & _)]]].
    + unfold readyState in Hc. congruence.
    + simpl in Hpeer. by rewrite bool_decide_eq_true_2 in Hpeer.
    + simpl in Hpeer. by rewrite bool_decide_eq_true_2 in Hpeer.
    + congruence.
Qed.

Lemma released_stays_run (s : nat) (r : ready_state) (evs : list event) (st : state) :
  Forall (fun ev => peer_closes s ev = false) evs →
  r ≠ CONNECTING →
  ws st ≠ Some s → readyState s st = Some r →
  readyState s (run evs st) = Some r.
Proof.
  intros Hevs Hr. revert st.
  induction Hevs as [|ev evs Hev _ IH]; intros st Hne Hs; [done|]. simpl.
  destruct (released_stays s r ev st Hev Hr Hne Hs) as [Hne' Hs']. by apply IH.
Qed.

(** X6. The timer that [cleanup] sets after sending [END] never closes
    the connection it was set for: by the time it fires the global
    reference has been cleared.  The stopped connection stays OPEN, on
    the client's side, until the browser reports that the peer closes
    it, whatever else happens meanwhile. *)
Theorem stopped_socket_not_closed_by_client
    (p : page) (evs later : list event) (s : nat) :
  ws (run evs (initial p)) = Some s →
  readyState s (run evs (initial p)) = Some OPEN →
  Forall (fun ev => peer_closes s ev = false) later →
  0 < timers (cleanup (run evs (initial p))) ∧
  readyState s (run later (cleanup (run evs (initial p)))) = Some OPEN.
Proof.
  intros Hw Ho Hlater.
  destruct (cleanup_fields (run evs (initial p))) as (_ & _ & _ & _ & _ & _ & _ & _ & Ht).
  split.
  - rewrite Ht. unfold end_frames. rewrite Hw, bool_decide_eq_true_2 by done. simpl. lia.
  - apply released_stays_run; [done|done|by rewrite ws_cleanup|].
    unfold readyState. by rewrite sockets_cleanup.
Qed.

Lemma stopped_socket_witness :
  0 < timers (cleanup (run session_trace (initial blank_page))) ∧
  readyState 0 (run flush_after_timer (cleanup (run session_trace (initial blank_page)))) =
    Some OPEN.
Proof.
  apply (stopped_socket_not_closed_by_client blank_page session_trace flush_after_timer 0);
    [reflexivity|reflexivity|repeat constructor].
Defined.

(** X7. The close timer acts on whichever socket the global refers to
    when it fires.  After a stop with the socket open, if Start is
    pressed and the new connection opens before the timer fires, the
    timer closes the new session's connection and leaves the stopped
    one open. *)
Theorem close_timer_closes_next_session (st : state) (s : nat) :
  ws st = Some s → readyState s st = Some OPEN →
  ws (run [ClickStart; SocketOpen (length (sockets st)); Timeout] (cleanup st)) =
    Some (length (sockets st)) ∧
  readyState (length (sockets st))
    (run [ClickStart; SocketOpen (length (sockets st)); Timeout] (cleanup st)) = Some CLOSING ∧
  readyState s
    (run [ClickStart; SocketOpen (length (sockets st)); Timeout] (cleanup st)) = Some OPEN.
Proof.
  intros Hw Ho.
  assert (Hlt : s < length (sockets st)) by by eapply lookup_lt_Some.
  destruct (cleanup_fields st) as (_ & _ & _ & _ & _ & _ & _ & _ & Ht).
  assert (Htm : timers (cleanup st) = S (timers st)).
  { rewrite Ht. unfold end_frames. rewrite Hw, bool_decide_eq_true_2 by done. simpl. lia. }
  pose proof (sockets_cleanup st) as Hso.
  assert (Hstart : startBtn_disabled (cleanup st) = false) by done.
  generalize dependent (cleanup st). intros c _ Htm Hso Hstart.
  set (n := length (sockets st)) in *.
  change (run [ClickStart; SocketOpen n; Timeout] c)
    with (step Timeout (step (SocketOpen n) (step ClickStart c))).
  assert (H1 : step ClickStart c = startBtn_onclick c).
  { simpl. unfold startBtn_click. by rewrite Hstart. }
  rewrite H1. clear H1.
  assert (Hs1 : sockets (startBtn_onclick c) = sockets st ++ [CONNECTING]).
  { simpl. by rewrite Hso. }
  assert (Hw1 : ws (startBtn_onclick c) = Some n).
  { simpl. by rewrite Hso. }
  assert (Ht1 : timers (startBtn_onclick c) = S (timers st)) by done.
  generalize dependent (startBtn_onclick c). intros st1 Hs1 Hw1 Ht1.
  assert (Hr1 : readyState n st1 = Some CONNECTING).
  { unfold readyState. rewrite Hs1. by rewrite lookup_app_r, Nat.sub_diag. }
  assert (H2 : step (SocketOpen n) st1 = onopen (set_sockets (<[n := OPEN]> (sockets st1)) st1)).
  { simpl. by rewrite Hr1. }
  rewrite H2. clear H2.
  assert (Hs2 : sockets (onopen (set_sockets (<[n := OPEN]> (sockets st1)) st1)) =
                <[n := OPEN]> (sockets st ++ [CONNECTING])).
  { simpl. by rewrite Hs1. }
  assert (Hw2 : ws (onopen (set_sockets (<[n := OPEN]> (sockets st1)) st1)) = Some n) by done.
  assert (Ht2 : timers (onopen (set_sockets (<[n := OPEN]> (sockets st1)) st1)) = S (timers st))
    by done.
  generalize dependent (onopen (set_sockets (<[n := OPEN]> (sockets st1)) st1)).
  intros st2 Hs2 Hw2 Ht2.
  assert (Hn : n < length (sockets st ++ [CONNECTING])).
  { rewrite length_app. simpl. unfold n. lia. }
  assert (Hr2 : readyState n st2 = Some OPEN).
  { unfold readyState. rewrite Hs2. by apply list_lookup_insert_eq. }
  assert (H3 : step Timeout st2 =
               set_sockets (<[n := CLOSING]> (sockets st2)) (set_timers (timers st) st2)).
  { simpl. rewrite Ht2. unfold close_timeout; simpl. rewrite Hw2.
    unfold socket_close, readyState in *; simpl. rewrite Hr2.
    by rewrite bool_decide_eq_true_2. }
  rewrite H3. split; [done|]. unfold readyState; simpl. rewrite Hs2. split.
  - apply list_lookup_insert_eq. by rewrite length_insert.
  - unfold n. rewrite !list_lookup_insert_ne by lia. by rewrite lookup_app_l.
Qed.

Lemma close_timer_witness :
  ws (run [ClickStart; SocketOpen (length (sockets (run session_trace (initial blank_page)))); Timeout]
        (cleanup (run session_trace (initial blank_page)))) =
    Some (length (sockets (run session_trace (initial blank_page)))) ∧
  readyState (length (sockets (run session_trace (initial blank_page))))
    (run [ClickStart; SocketOpen (length (sockets (run session_trace (initial blank_page)))); Timeout]
       (cleanup (run session_trace (initial blank_page)))) = Some CLOSING ∧
  readyState 0
    (run [ClickStart; SocketOpen (length (sockets (run session_trace (initial blank_page)))); Timeout]
       (cleanup (run session_trace (initial blank_page)))) = Some OPEN.
Proof.
  apply (close_timer_closes_next_session (run session_trace (initial blank_page)) 0);
    reflexivity.
Defined.

(** X8. [END] is sent only if the socket is OPEN when [cleanup] runs.
    A session stopped while its socket is still connecting, or already
    closing, gets no [END] and no close timer, and nothing is ever sent
    on that connection afterwards. *)
Theorem no_end_unless_open (p : page) (evs later : list event) (s : nat) :
  ws (run evs (initial p)) = Some s →
  readyState s (run evs (initial p)) ≠ Some OPEN →
  wire (cleanup (run evs (initial p))) = wire (run evs (initial p)) ∧
  timers (cleanup (run evs (initial p))) = timers (run evs (initial p)) ∧
  sent_on s (run later (cleanup (run evs (initial p)))) = sent_on s (run evs (initial p)).
Proof.
  intros Hw Ho. set (st := run evs (initial p)) in *.
  assert (He : end_frames st = []).
  { unfold end_frames. rewrite Hw. by rewrite bool_decide_eq_false_2. }
  destruct (cleanup_fields st) as (_ & _ & _ & _ & _ & _ & _ & _ & Ht).
  rewrite wire_cleanup, Ht, He, app_nil_r. simpl. split; [done|]. split; [lia|].
  rewrite released_run.
  - apply sent_on_wire. by rewrite wire_cleanup, He, app_nil_r.
  - by rewrite ws_cleanup.
  - rewrite sockets_cleanup.
    by apply (ws_exists _ (consistent_run evs _ (consistent_initial p))).
Qed.

Lemma no_end_unless_open_witness :
  wire (cleanup (run connecting (initial blank_page))) = wire (run connecting (initial blank_page)) ∧
  timers (cleanup (run connecting (initial blank_page))) =
    timers (run connecting (initial blank_page)) ∧
  sent_on 0 (run session_trace (cleanup (run connecting (initial blank_page)))) =
    sent_on 0 (run connecting (initial blank_page)).
Proof.
  apply (no_end_unless_open blank_page connecting session_trace 0); [reflexivity|discriminate].
Defined.

(** X9. The close of any connection runs [cleanup] on the globals, not
    on the connection that closed.  The closed connection itself gets
    no [END]; but when it is a connection of an earlier session and the
    current session's socket is open, the current session is ended:
    [END] goes out on the current socket and the reference is cleared. *)
Theorem close_of_any_socket_ends_session (st : state) (s : nat) (r : ready_state) :
  readyState s st = Some r → r ≠ CLOSED →
  controls (step (SocketClose s) st) = (None, false, true) ∧
  status_text (step (SocketClose s) st) = lit "Stopped" ∧
  readyState s (step (SocketClose s) st) = Some CLOSED ∧
  wire (step (SocketClose s) st) =
    wire st ++
    match ws st with
    | Some current =>
        if bool_decide (current ≠ s) && bool_decide (readyState current st = Some OPEN)
        then [(current, Text END)] else []
    | None => []
    end.
Proof.
  intros Hs Hr.
  assert (Hlt : s < length (sockets st)) by by eapply lookup_lt_Some.
  assert (Hstep : step (SocketClose s) st = onclose (set_sockets (<[s := CLOSED]> (sockets st)) st)).
  { simpl. rewrite Hs. by destruct r. }
  rewrite Hstep. unfold onclose.
  match goal with |- context [cleanup ?x] => set (x0 := x) end.
  destruct (cleanup_fields x0) as (Hc & _ & _ & _ & Hst & _).
  split; [done|]. split; [done|]. split.
  - unfold readyState. rewrite sockets_cleanup. simpl. by apply list_lookup_insert_eq.
  - rewrite wire_cleanup. unfold end_frames, x0, readyState; simpl. f_equal.
    destruct (ws st) as [current|]; [|done].
    destruct (decide (current = s)) as [->|Hne].
    + rewrite list_lookup_insert_eq by done.
      rewrite (bool_decide_eq_false_2 (s ≠ s)) by naive_solver. done.
    + rewrite list_lookup_insert_ne by done.
      by rewrite (bool_decide_eq_true_2 (current ≠ s)).
Qed.

Lemma close_of_earlier_socket_witness :
  controls (step (SocketClose 0) (run second_session (initial blank_page))) = (None, false, true) ∧
  status_text (step (SocketClose 0) (run second_session (initial blank_page))) = lit "Stopped" ∧
  readyState 0 (step (SocketClose 0) (run second_session (initial blank_page))) = Some CLOSED ∧
  wire (step (SocketClose 0) (run second_session (initial blank_page))) =
    wire (run second_session (initial blank_page)) ++
    match ws (run second_session (initial blank_page)) with
    | Some current =>
        if bool_decide (current ≠ 0)
           && bool_decide (readyState current (run second_session (initial blank_page)) = Some OPEN)
        then [(current, Text END)] else []
    | None => []
    end.
Proof.
  apply (close_of_any_socket_ends_session (run second_session (initial blank_page)) 0 OPEN);
    [reflexivity|discriminate].
Defined.

Example close_of_earlier_socket_wire :
  wire (step (SocketClose 0) (run second_session (initial blank_page))) =
  [(0, Text END); (1, Text END)].
Proof. reflexivity. Qed.

Lemma controls_onopen_granted (sup : jsstring → bool) (n : nat) (st : state) :
  controls (onopen_granted sup (set_gum_pending n st)) = controls st.
Proof. reflexivity. Qed.

(** X10. The part of [ws.onopen] after [getUserMedia] does not look at
    the session again.  If Stop is clicked while the microphone request
    is pending and the request is then granted, a recorder is created
    and started although no socket is held: [isRecording] becomes true,
    the Stop button stays disabled, so neither a click on Stop nor Space
    nor Escape stops it, and every chunk it delivers is skipped. *)
Theorem microphone_granted_after_stop
    (p : page) (evs : list event) (isTypeSupported : jsstring → bool) (e : blob) :
  ws (run evs (initial p)) ≠ None →
  0 < gum_pending (run evs (initial p)) →
  isRecording (run [ClickStop; UserMedia true isTypeSupported] (run evs (initial p))) = true ∧
  mediaRecorder (run [ClickStop; UserMedia true isTypeSupported] (run evs (initial p))) =
    Some (recorder_start 3000 (new_MediaRecorder (options isTypeSupported))) ∧
  controls (run [ClickStop; UserMedia true isTypeSupported] (run evs (initial p))) =
    (None, false, true) ∧
  Forall (fun ev =>
            step ev (run [ClickStop; UserMedia true isTypeSupported] (run evs (initial p))) =
            run [ClickStop; UserMedia true isTypeSupported] (run evs (initial p)))
         [ClickStop; KeySpace; KeyEscape; DataAvailable e].
Proof.
  intros Hws Hgum. pose proof (buttons_follow_socket p evs) as Hb.
  set (st := run evs (initial p)) in *.
  destruct (ws st) as [s|]; [|done]. destruct Hb as [_ Hstop].
  assert (H1 : step ClickStop st = stopBtn_onclick st).
  { simpl. unfold stopBtn_click. by rewrite Hstop. }
  unfold stopBtn_onclick in H1.
  match type of H1 with _ = cleanup ?x => set (x0 := x) in * end.
  destruct (cleanup_fields x0) as (Hc & _ & _ & _ & _ & _ & _ & Hg & _).
  change (gum_pending x0) with (gum_pending st) in Hg.
  destruct (gum_pending st) as [|n] eqn:Egp; [lia|].
  set (st' := onopen_granted isTypeSupported (set_gum_pending n (cleanup x0))).
  assert (H2 : run [ClickStop; UserMedia true isTypeSupported] st = st').
  { change (run [ClickStop; UserMedia true isTypeSupported] st)
      with (step (UserMedia true isTypeSupported) (step ClickStop st)).
    rewrite H1. cbn [step]. by rewrite Hg. }
  rewrite H2.
  assert (Hrec : isRecording st' = true) by done.
  assert (Hmr : mediaRecorder st' =
                Some (recorder_start 3000 (new_MediaRecorder (options isTypeSupported)))) by done.
  assert (Hctl : controls st' = (None, false, true)).
  { unfold st'. by rewrite controls_onopen_granted. }
  clearbody st'. split; [done|]. split; [done|]. split; [done|].
  unfold controls in Hctl. injection Hctl as Hnull _ Hdis.
  assert (Hclick : stopBtn_click st' = st') by (unfold stopBtn_click; by rewrite Hdis).
  rewrite !Forall_cons. split; [exact Hclick|]. split; [|split; [|split; [|by constructor]]].
  - simpl. unfold onkeydown_space. by rewrite Hrec.
  - simpl. unfold onkeydown_escape. by rewrite Hrec.
  - by apply ondataavailable_null.
Qed.

Lemma microphone_granted_after_stop_witness :
  isRecording (run [ClickStop; UserMedia true (fun _ => true)]
                 (run awaiting_microphone (initial blank_page))) = true ∧
  mediaRecorder (run [ClickStop; UserMedia true (fun _ => true)]
                   (run awaiting_microphone (initial blank_page))) =
    Some (recorder_start 3000 (new_MediaRecorder (options (fun _ => true)))) ∧
  controls (run [ClickStop; UserMedia true (fun _ => true)]
              (run awaiting_microphone (initial blank_page))) = (None, false, true) ∧
  Forall (fun ev =>
            step ev (run [ClickStop; UserMedia true (fun _ => true)]
                       (run awaiting_microphone (initial blank_page))) =
            run [ClickStop; UserMedia true (fun _ => true)]
              (run awaiting_microphone (initial blank_page)))
         [ClickStop; KeySpace; KeyEscape; DataAvailable last_chunk].
Proof.
  apply (microphone_granted_after_stop blank_page awaiting_microphone (fun _ => true) last_chunk);
    [discriminate|simpl; lia].
Defined.

(** ** The recording flag *)

Lemma recorder_fields_cleanup (st : state) :
  mediaRecorder (cleanup st) = mediaRecorder (stop_recorder (reset_ui st)) ∧
  isRecording (cleanup st) = isRecording (stop_recorder (reset_ui st)).
Proof.
  rewrite cleanup_blocks.
  set (b := stop_recorder (reset_ui st)).
  pose proof (page_view_send_end (stop_stream b)) as Hv. unfold page_view in Hv.
  injection Hv as Hmr Hir _ _ _ _ _ _.
  destruct (stop_stream_fields b) as [_ Hc]. injection Hc as Hmr' Hir' _ _ _ _ _ _.
  change (mediaRecorder (set_buttons false true (set_ws None ?x))) with (mediaRecorder x).
  change (isRecording (set_buttons false true (set_ws None ?x))) with (isRecording x).
  by rewrite Hmr, Hir, Hmr', Hir'.
Qed.

Lemma flag_stop_recorder (st : state) :
  isRecording st = recorder_recording st →
  isRecording (stop_recorder st) = false ∧ recorder_recording (stop_recorder st) = false.
Proof.
  unfold recorder_recording, stop_recorder. intros H.
  destruct (mediaRecorder st) as [r|] eqn:Er.
  - unfold recorder_stop. destruct (rec_state r) eqn:Es; rewrite H; simpl; by rewrite ?Er, ?Es.
  - rewrite H. by rewrite Er.
Qed.

Lemma flag_cleanup (st st0 : state) :
  mediaRecorder st = mediaRecorder st0 → isRecording st = isRecording st0 →
  isRecording st0 = recorder_recording st0 →
  isRecording (cleanup st) = false ∧ recorder_recording (cleanup st) = false.
Proof.
  intros Hm Hi H0. destruct (recorder_fields_cleanup st) as [Hmr Hir].
  destruct (flag_stop_recorder (reset_ui st)) as [H1 H2].
  { unfold recorder_recording.
    change (mediaRecorder (reset_ui st)) with (mediaRecorder st).
    change (isRecording (reset_ui st)) with (isRecording st).
    rewrite Hm, Hi. exact H0. }
  unfold recorder_recording in *. by rewrite Hmr, Hir.
Qed.

Lemma flag_same (st st' : state) :
  mediaRecorder st' = mediaRecorder st → isRecording st' = isRecording st →
  isRecording st = recorder_recording st → isRecording st' = recorder_recording st'.
Proof. unfold recorder_recording. by intros -> ->. Qed.

Lemma flag_step (ev : event) (st : state) :
  isRecording st = recorder_recording st →
  isRecording (step ev st) = recorder_recording (step ev st).
Proof.
  intros H.
  assert (Hclean : ∀ x, mediaRecorder x = mediaRecorder st → isRecording x = isRecording st →
                        isRecording (cleanup x) = recorder_recording (cleanup x)).
  { intros x Hm Hi. destruct (flag_cleanup x st Hm Hi H) as [-> ->]. done. }
  assert (Hstop : isRecording (stopBtn_click st) = recorder_recording (stopBtn_click st)).
  { unfold stopBtn_click. destruct (stopBtn_disabled st); [done|]. by apply Hclean. }
  assert (Hstart : isRecording (startBtn_click st) = recorder_recording (startBtn_click st)).
  { unfold startBtn_click. by destruct (startBtn_disabled st). }
  destruct ev as [| | | | |s|s data|s|s|s|granted sup| |e|k| | | ]; simpl; try done.
  - unfold onkeydown_space. destruct (isRecording st) eqn:E; simpl; [done|exact Hstart].
  - unfold onkeydown_escape. destruct (isRecording st) eqn:E; [done|by rewrite E].
  - unfold onbeforeunload. destruct (isRecording st) eqn:E; [|by rewrite E].
    apply Hclean; [done|by rewrite E].
  - by destruct (readyState s st) as [[]|].
  - unfold on_socket. destruct (readyState s st); [|done].
    rewrite onmessage_display. unfold display. by destruct (shown _).
  - unfold on_socket. by destruct (readyState s st).
  - by destruct (readyState s st) as [[]|].
  - destruct (readyState s st) as [[]|]; try done.
    all: by apply Hclean.
  - destruct (gum_pending st) as [|n]; [done|]. destruct granted; [done|].
    by apply Hclean.
  - unfold ondataavailable. by destruct (_ && _).
  - destruct (awaiting st !! k) as [b|]; [|done].
    eapply flag_same; [| |exact H].
    + by rewrite mediaRecorder_ondataavailable_resume.
    + unfold ondataavailable_resume, try_catch, socket_send.
      destruct (ws _) as [s|]; [|done]. by destruct (readyState s _) as [[]|].
  - unfold recorder_onstop. by destruct (stream st).
  - destruct (timers st) as [|n]; [done|].
    unfold close_timeout. simpl. destruct (ws st) as [s|]; [|done].
    case_bool_decide as Ho; [|done]. unfold socket_close. by rewrite Ho.
Qed.

Lemma flag_run (evs : list event) (st : state) :
  isRecording st = recorder_recording st →
  isRecording (run evs st) = recorder_recording (run evs st).
Proof.
  revert st. induction evs as [|ev evs IH]; intros st H; [done|].
  simpl. by apply IH, flag_step.
Qed.

(** X11. The flag [isRecording] always tells whether the recorder the
    page holds has been started and not yet stopped by the script.
    Hence [cleanup] always leaves the page idle: not recording, the held
    recorder stopped, the stream released, no socket held, Start enabled
    and Stop disabled. *)
Theorem cleanup_returns_to_idle (p : page) (evs : list event) :
  isRecording (run evs (initial p)) = recorder_recording (run evs (initial p)) ∧
  isRecording (cleanup (run evs (initial p))) = false ∧
  recorder_recording (cleanup (run evs (initial p))) = false ∧
  stream (cleanup (run evs (initial p))) = None ∧
  controls (cleanup (run evs (initial p))) = (None, false, true).
Proof.
  assert (H : isRecording (run evs (initial p)) = recorder_recording (run evs (initial p))).
  { by apply flag_run. }
  split; [done|].
  destruct (flag_cleanup _ _ eq_refl eq_refl H) as [Hi Hr].
  destruct (cleanup_fields (run evs (initial p))) as (_ & _ & Hs & _).
  done.
Qed.
